(** * Lorenz equations and bifurcation diagrams: a shallow embedding

    The two notebooks [LorenzEquations.ipynb] and [Bifurcations.ipynb] are
    embedded over exact rational arithmetic ([Q]): numbers that the Python
    code holds as floats are rationals here, and equalities between computed
    numbers are stated up to [Qeq] ([==]) where the two sides are different
    expressions.  Python lists and one-dimensional numpy arrays are
    [list Q]; an index or a slice bound is an integer ([Z]) and may be
    negative, as in Python.

    Where a property depends on what double precision does (an overflow to
    an infinity, nan, an underflow to zero, a small term absorbed by a large
    one) the Lorenz map cell is embedded a second time, in the module
    [Float64], over IEEE binary64 numbers, Rocq's primitive [float]. *)

From Stdlib Require Import QArith Lqa Lia List Sorted String Floats.
From stdpp Require Import gmap list strings vector.

Local Open Scope Q_scope.

(** ** Exceptions and results *)

(** The Python exceptions that the embedded operations can raise.
    [IndexError]: an index past the end of a list or array.
    [ValueError]: numpy's shape mismatch ("could not broadcast"), and
    [odeint]'s refusal of a time array that is not monotone.
    [TypeError]: pyplot's refusal to contour a grid of fewer than two rows
    or two columns.
    [RuntimeError]: [odeint]'s refusal of a right-hand side whose result has
    not the size of the initial condition.
    [Unbound]: a reference that names no object; Python has no such state,
    it only marks ill-formed stores of the model. *)
Inductive exn : Type :=
| IndexError
| ValueError
| TypeError
| RuntimeError
| Unbound.

Inductive result (A : Type) : Type :=
| Ok (a : A)
| Raise (e : exn).

Arguments Ok {A} a.
Arguments Raise {A} e.

(** Sequencing: the first exception raised ends the computation.  The
    notation [x ← m; k] is stdpp's, through [MBind]. *)
#[global] Instance result_ret : MRet result := fun A a => Ok a.

#[global] Instance result_bind : MBind result := fun A B k m =>
  match m with
  | Ok a => k a
  | Raise e => Raise e
  end.

(** ** Python indexing and slicing *)

(** [l[i]] for an integer [i]: a negative index counts from the end, and an
    index outside [-len(l) .. len(l)-1] raises IndexError. *)
Definition getitem {A} (l : list A) (i : Z) : result A :=
  let n := Z.of_nat (length l) in
  let j := if (i <? 0)%Z then (i + n)%Z else i in
  if ((0 <=? j)%Z && (j <? n)%Z)%bool
  then match l !! Z.to_nat j with
       | Some v => Ok v
       | None => Raise IndexError
       end
  else Raise IndexError.

(** A slice bound is clipped, never an error: a negative bound has the length
    added and is then clipped at 0, a bound past the end is clipped at the
    length. *)
Definition clip (n : nat) (i : Z) : nat :=
  if (i <? 0)%Z
  then Z.to_nat (Z.max 0 (i + Z.of_nat n))
  else Nat.min (Z.to_nat i) n.

(** The half-open range [start, stop) that [l[a:b]] covers; a missing bound
    is [None]. *)
Definition slice_start (n : nat) (a : option Z) : nat :=
  match a with Some i => clip n i | None => 0%nat end.

Definition slice_stop (n : nat) (b : option Z) : nat :=
  match b with Some i => clip n i | None => n end.

Definition py_slice {A} (l : list A) (a b : option Z) : list A :=
  let s := slice_start (length l) a in
  let e := slice_stop (length l) b in
  take (e - s) (drop s l).

(** ** The Lorenz right-hand side (LorenzEquations.ipynb, [Lorenz]) *)

Definition Lorenz (state : list Q) (t sigma r b : Q) : result (list Q) :=
  (* unpack the state vector *)
  x ← getitem state 0;
  y ← getitem state 1;
  z ← getitem state 2;
  (* compute state derivatives *)
  let xd := sigma * (y - x) in
  let yd := (r - z) * x - y in
  let zd := x * y - b * z in
  (* return the state derivatives *)
  Ok [xd; yd; zd].

(** ** The numpy operations the notebooks use, on one-dimensional arrays *)

(** [x < y] as numpy evaluates it on exact numbers. *)
Definition Qlt_bool (x y : Q) : bool :=
  match x ?= y with
  | Lt => true
  | _ => false
  end.

(** [np.zeros(n)]. *)
Definition np_zeros (n : nat) : list Q := replicate n 0.

(** An elementwise binary operation [a op b] with numpy's broadcasting rule
    for one dimension: an operand of length 1 is stretched over the other,
    equal lengths pair up, anything else raises ValueError. *)
Definition np_binop {A} (op : A -> A -> A) (a b : list A) : result (list A) :=
  match a, b with
  | [x], _ => Ok (map (op x) b)
  | _, [y] => Ok (map (fun x => op x y) a)
  | _, _ => if decide (length a = length b)
            then Ok (zip_with op a b)
            else Raise ValueError
  end.

(** [a[lo:hi] = v]: the right-hand side must have the length of the slice or
    length 1 (it is then broadcast); the array keeps its length. *)
Definition np_setslice {A} (a : list A) (lo hi : option Z) (v : list A)
  : result (list A) :=
  let s := slice_start (length a) lo in
  let e := slice_stop (length a) hi in
  let k := (e - s)%nat in
  if decide (length v = k)
  then Ok (take s a ++ v ++ drop (s + k) a)
  else match v with
       | [c] => Ok (take s a ++ replicate k c ++ drop (s + k) a)
       | _ => Raise ValueError
       end.

(** [np.nonzero(mask)] for a boolean array: the positions that hold True, in
    increasing order. *)
Fixpoint nonzero_from (k : nat) (mask : list bool) : list nat :=
  match mask with
  | [] => []
  | b :: rest => (if b then [k] else []) ++ nonzero_from (S k) rest
  end.

Definition np_nonzero (mask : list bool) : list nat := nonzero_from 0 mask.

(** [a[idx]] for an array of (non-negative) positions: one element per
    position, IndexError on a position past the end. *)
Fixpoint np_take {A} (a : list A) (idx : list nat) : result (list A) :=
  match idx with
  | [] => Ok []
  | i :: rest =>
      v ← getitem a (Z.of_nat i);
      vs ← np_take a rest;
      Ok (v :: vs)
  end.

(** [a[mask]] for a boolean array: the elements at the True positions;
    numpy raises IndexError when the lengths differ. *)
Fixpoint np_getmask {A} (a : list A) (mask : list bool) : result (list A) :=
  match a, mask with
  | [], [] => Ok []
  | v :: a', b :: mask' =>
      vs ← np_getmask a' mask';
      Ok (if b then v :: vs else vs)
  | _, _ => Raise IndexError
  end.

(** [np.sum(a)] and [np.mean(a)].  On the empty array numpy's mean is nan
    (with a warning); here it is 0, the value of [0 / 0] in [Q]. *)
Definition np_sum (a : list Q) : Q := foldr Qplus 0 a.

Definition np_mean (a : list Q) : Q :=
  np_sum a / inject_Z (Z.of_nat (length a)).

(** ** The Lorenz map cell (LorenzEquations.ipynb)

    The cell works on the series [Z = state0[:,2]]; it is written [Zs] here,
    [Z] being the type of integers.  The arithmetic of this section is
    exact; the same cell on doubles, with the rounding, the overflow and the
    nan of the real run, is in the module [Float64] below. *)

(** [dZ = np.zeros(Z.shape); dZ[1:-2] = Z[2:-1] - Z[0:-3]] *)
Definition dZ (Zs : list Q) : result (list Q) :=
  let dZ0 := np_zeros (length Zs) in
  rhs ← np_binop Qminus (py_slice Zs (Some 2%Z) (Some (-1)%Z))
                        (py_slice Zs (Some 0%Z) (Some (-3)%Z));
  np_setslice dZ0 (Some 1%Z) (Some (-2)%Z) rhs.

(** [icross = np.nonzero(dZ[:-2]*dZ[1:-1] <= 0)] *)
Definition icross (Zs : list Q) : result (list nat) :=
  d ← dZ Zs;
  p ← np_binop Qmult (py_slice d None (Some (-2)%Z))
                      (py_slice d (Some 1%Z) (Some (-1)%Z));
  Ok (np_nonzero (map (fun v => Qle_bool v 0) p)).

(** [Zextreme = Z[icross]] *)
Definition Zextreme (Zs : list Q) : result (list Q) :=
  ic ← icross Zs;
  np_take Zs ic.

(** [meanZ = np.mean(Z)] *)
Definition meanZ (Zs : list Q) : Q := np_mean Zs.

(** [Zn = Zextreme[Zextreme > meanZ]] *)
Definition Zn (Zs : list Q) : result (list Q) :=
  ze ← Zextreme Zs;
  np_getmask ze (map (fun v => Qlt_bool (meanZ Zs) v) ze).

(** *** The cell's steps as the notebook describes them

    These definitions follow the prose (the markdown cell above the code and
    the specification), not the code; the theorems below compare the two. *)

#[global] Instance Q_inhabited : Inhabited Q := populate 0.

(** "approximate the derivative of Z": the centred difference
    [Z[i+1] - Z[i-1]] at the indices 1 .. len(Z)-3, and 0 at the remaining
    (boundary) indices. *)
Definition dZ_entry (Zs : list Q) (i : nat) : Q :=
  if decide (1 <= i /\ i + 3 <= length Zs)%nat
  then Zs !!! (i + 1)%nat - Zs !!! (i - 1)%nat
  else 0.

(** The zero-crossing test between the samples [i] and [i+1]. *)
Definition cross_at (Zs : list Q) (i : nat) : bool :=
  Qle_bool (dZ_entry Zs i * dZ_entry Zs (i + 1)) 0.

(** The indices 0 .. len(Z)-3 at which the test holds, in increasing order. *)
Definition crossings (Zs : list Q) : list nat :=
  List.filter (cross_at Zs) (seq 0 (length Zs - 2)).

(** Sample [i] is a local maximum of the series: it is at least as large as
    each neighbouring sample that exists. *)
Definition local_max_at (Zs : list Q) (i : nat) : bool :=
  match Zs !! i with
  | None => false
  | Some v =>
      match i with
      | O => true
      | S j => match Zs !! j with Some u => Qle_bool u v | None => true end
      end
      && match Zs !! S i with Some w => Qle_bool w v | None => true end
  end.

(** The value [v] occurs in the series as a local maximum. *)
Definition is_local_max (Zs : list Q) (v : Q) : bool :=
  existsb (fun i => Qeq_bool (Zs !!! i) v && local_max_at Zs i)
          (seq 0 (length Zs)).

(** "Every value the heuristic selects is a local maximum of the series." *)
Definition selects_local_maxima (Zs : list Q) : Prop :=
  forall zn, Zn Zs = Ok zn ->
  forall v, v ∈ zn -> is_local_max Zs v = true.

(** "It selects exactly the indices [i] for which [dZ[i]*dZ[i+1] <= 0]",
    over every index at which both entries of [dZ] exist. *)
Definition selects_every_sign_crossing (Zs : list Q) : Prop :=
  forall d ic, dZ Zs = Ok d -> icross Zs = Ok ic ->
  forall i : nat,
    i ∈ ic <->
    exists a b, d !! i = Some a /\ d !! S i = Some b /\ a * b <= 0.

(** ** The Lorenz map cell in double precision

    The same cell on IEEE binary64 numbers, the element type of the array
    [Z]: the subtraction and the product round, overflow to an infinity and
    underflow to zero, [0 * inf] is nan, and a comparison with nan is
    false. *)

#[global] Instance float_inhabited : Inhabited float := populate 0%float.

Module Float64.

(** [dZ = np.zeros(Z.shape); dZ[1:-2] = Z[2:-1] - Z[0:-3]] *)
Definition dZ (Zs : list float) : result (list float) :=
  let dZ0 := replicate (length Zs) 0%float in
  rhs ← np_binop PrimFloat.sub (py_slice Zs (Some 2%Z) (Some (-1)%Z))
                               (py_slice Zs (Some 0%Z) (Some (-3)%Z));
  np_setslice dZ0 (Some 1%Z) (Some (-2)%Z) rhs.

(** [icross = np.nonzero(dZ[:-2]*dZ[1:-1] <= 0)] *)
Definition icross (Zs : list float) : result (list nat) :=
  d ← dZ Zs;
  p ← np_binop PrimFloat.mul (py_slice d None (Some (-2)%Z))
                             (py_slice d (Some 1%Z) (Some (-1)%Z));
  Ok (np_nonzero (map (fun v => PrimFloat.leb v 0%float) p)).

(** [Zextreme = Z[icross]] *)
Definition Zextreme (Zs : list float) : result (list float) :=
  ic ← icross Zs;
  np_take Zs ic.

Section Mean.

(** [np.mean] adds the samples in an order of its own (pairwise, in
    blocks), and the rounded sum depends on that order: it is a parameter
    here. *)
Variable np_mean : list float -> float.

(** [meanZ = np.mean(Z)] *)
Definition meanZ (Zs : list float) : float := np_mean Zs.

(** [Zn = Zextreme[Zextreme > meanZ]] *)
Definition Zn (Zs : list float) : result (list float) :=
  ze ← Zextreme Zs;
  np_getmask ze (map (fun v => PrimFloat.ltb (meanZ Zs) v) ze).

End Mean.

(** The entries of [dZ] and the crossing test, as for the exact cell. *)
Definition dZ_entry (Zs : list float) (i : nat) : float :=
  if decide (1 <= i /\ i + 3 <= length Zs)%nat
  then PrimFloat.sub (Zs !!! (i + 1)%nat) (Zs !!! (i - 1)%nat)
  else 0%float.

Definition cross_at (Zs : list float) (i : nat) : bool :=
  PrimFloat.leb (PrimFloat.mul (dZ_entry Zs i) (dZ_entry Zs (i + 1))) 0%float.

Definition crossings (Zs : list float) : list nat :=
  List.filter (cross_at Zs) (seq 0 (length Zs - 2)).

(** A mean that adds from left to right: one instance of the parameter. *)
Definition mean_left_to_right (Zs : list float) : float :=
  PrimFloat.div (foldl PrimFloat.add 0%float Zs)
                (foldl (fun n _ => PrimFloat.add n 1%float) 0%float Zs).

(** "The test dZ[0]*dZ[1] <= 0 holds for every input series Z of length at
    least 4, so index 0 is always in icross." *)
Definition first_sample_selected (Zs : list float) : Prop :=
  (4 <= length Zs)%nat -> exists ic, icross Zs = Ok (0%nat :: ic).

(** A series that rises from each sample to the next. *)
Definition strictly_increasing (Zs : list float) : Prop :=
  forall (i : nat) a b,
    Zs !! i = Some a -> Zs !! S i = Some b -> PrimFloat.ltb a b = true.

End Float64.

(** ** Integrating the system (LorenzEquations.ipynb, [SolveLorenz]) *)

(** [np.diff(t)]: the steps of a time array. *)
Fixpoint np_diff (t : list Q) : list Q :=
  match t with
  | a :: (b :: _) as rest => (b - a) :: np_diff rest
  | _ => []
  end.

(** The test [odeint] makes on its time array before it integrates: the
    steps are all [>= 0] or all [<= 0] ("repeated values are allowed"). *)
Definition monotone_grid (t : list Q) : bool :=
  forallb (fun d => Qle_bool 0 d) (np_diff t)
  || forallb (fun d => Qle_bool d 0) (np_diff t).

Section Integrator.

(** The solver behind [scipy.integrate.odeint] is external: it is a
    parameter.  [lsoda func y0 t k] is what the solver stores for the time
    [t[k]], [k >= 1]; it is written into row [k] of the output array, which
    has one column per component of [y0], and the type says no more than
    that. *)
Variable lsoda :
  (list Q -> Q -> result (list Q)) -> forall y0 : list Q, list Q -> nat ->
  vec Q (length y0).

(** [scipy.integrate.odeint(func, y0, t)], the wrapper around the solver, as
    scipy documents it: a time array that is not monotone is refused with
    ValueError; the right-hand side is called at [(y0, t[0])], an exception
    of it ends the call and a result of another size than [y0] is refused
    with RuntimeError; the result is an "array, shape (len(t), len(y0))",
    "with the initial value y0 in the first row".  The documentation says
    nothing of an empty time array; the model gives the empty trajectory
    there. *)
Definition odeint (func : list Q -> Q -> result (list Q)) (y0 t : list Q)
  : result (list (list Q)) :=
  if monotone_grid t
  then match t with
       | [] => Ok []
       | t0 :: rest =>
           d ← func y0 t0;
           if decide (length d = length y0)
           then Ok (y0 :: map (fun k => vec_to_list (lsoda func y0 t k))
                              (seq 1 (length rest)))
           else Raise RuntimeError
       end
  else Raise ValueError.

Definition SolveLorenz (state0 t : list Q) (sigma r b : Q)
  : result (list (list Q)) :=
  let Lorenz_p := fun state t => Lorenz state t sigma r b in
  state ← odeint Lorenz_p state0 t;
  Ok state.

(** The keyword defaults [sigma=10., r=28., b=8./3.0]. *)
Definition SolveLorenz_default (state0 t : list Q) : result (list (list Q)) :=
  SolveLorenz state0 t 10 28 (8 / 3).

End Integrator.

(** "SolveLorenz returns a trajectory of shape (len(t), 3) whose first row
    equals state0." *)
Definition returns_trajectory lsoda (state0 t : list Q) (sigma r b : Q)
  : Prop :=
  exists traj,
    SolveLorenz lsoda state0 t sigma r b = Ok traj /\
    length traj = length t /\
    Forall (fun row => length row = 3%nat) traj /\
    traj !! 0%nat = Some state0.

(** A solver that stores the initial condition at every time: one instance
    of the parameter. *)
Definition hold_state (func : list Q -> Q -> result (list Q)) (y0 : list Q)
  (t : list Q) (k : nat) : vec Q (length y0) :=
  list_to_vec y0.

(** ** Objects, the store and the pyplot state

    A Python variable holds a reference to an object.  The store maps a
    reference to the list or array it names; the pyplot state is the stack of
    figures, the current figure first. *)

Definition loc := positive.

Record line := Line {
  line_x : list Q;
  line_y : list Q;
  line_fmt : string
}.

Record figure := Figure {
  fig_contours : list (list (list (Q * Q)));
  fig_lines : list line;
  fig_hold : bool;
  fig_xlabel : string;
  fig_ylabel : string;
  fig_legend : option (list string);
  fig_xlim : option (Q * Q);
  fig_ylim : option (Q * Q)
}.

(** A figure as [plt.figure()] or [plt.clf()] leaves it; [hold] is on, the
    default of the library version the notebook runs on. *)
Definition new_figure : figure :=
  Figure [] [] true "" "" None None None.

Record world := World {
  heap : gmap loc (list Q);
  figures : list figure
}.

(** A statement runs in a world and returns a value or raises; an exception
    leaves in place what the statements before it did. *)
Definition M (A : Type) : Type := world -> result A * world.

#[global] Instance M_ret : MRet M := fun A a w => (Ok a, w).

#[global] Instance M_bind : MBind M := fun A B k m w =>
  match m w with
  | (Ok a, w') => k a w'
  | (Raise e, w') => (Raise e, w')
  end.

Definition lift {A} (m : result A) : M A := fun w => (m, w).

(** An exception raised by a library call. *)
Definition raise {A} (e : exn) : M A := lift (Raise e).

(** The object a reference names. *)
Definition load (l : loc) : M (list Q) := fun w =>
  match heap w !! l with
  | Some a => (Ok a, w)
  | None => (Raise Unbound, w)
  end.

(** [obj[i]] *)
Definition getitem_obj (l : loc) (i : Z) : M Q :=
  a ← load l;
  lift (getitem a i).

(** A list display [[a, b, c]]: a new object. *)
Definition new_list (v : list Q) : M loc := fun w =>
  let l := fresh (dom (heap w)) in
  (Ok l, World (<[l := v]> (heap w)) (figures w)).

(** [obj[i] = v], the store's only writing operation; no function of the two
    notebooks uses it on an argument. *)
Definition setitem_obj (l : loc) (i : nat) (v : Q) : M unit := fun w =>
  match heap w !! l with
  | Some a =>
      if decide (i < length a)%nat
      then (Ok tt, World (<[l := <[i := v]> a]> (heap w)) (figures w))
      else (Raise IndexError, w)
  | None => (Raise Unbound, w)
  end.

(** pyplot commands act on the current figure, which is created on demand. *)
Definition on_gcf (g : figure -> figure) : M unit := fun w =>
  (Ok tt,
   World (heap w)
         match figures w with
         | [] => [g new_figure]
         | fig :: rest => g fig :: rest
         end).

Definition plt_figure : M unit := fun w =>
  (Ok tt, World (heap w) (new_figure :: figures w)).

Definition plt_clf : M unit := on_gcf (fun _ => new_figure).

Definition plt_contour (paths : list (list (Q * Q))) : M unit :=
  on_gcf (fun fig =>
    Figure (fig_contours fig ++ [paths]) (fig_lines fig) (fig_hold fig)
           (fig_xlabel fig) (fig_ylabel fig) (fig_legend fig)
           (fig_xlim fig) (fig_ylim fig)).

(** [plt.plot(xs, ys, fmt)]: with hold off the axes are cleared first. *)
Definition plt_plot (xs ys : list Q) (fmt : string) : M unit :=
  on_gcf (fun fig =>
    Figure (fig_contours fig)
           ((if fig_hold fig then fig_lines fig else []) ++ [Line xs ys fmt])
           (fig_hold fig)
           (fig_xlabel fig) (fig_ylabel fig) (fig_legend fig)
           (fig_xlim fig) (fig_ylim fig)).

Definition plt_hold (b : bool) : M unit :=
  on_gcf (fun fig =>
    Figure (fig_contours fig) (fig_lines fig) b
           (fig_xlabel fig) (fig_ylabel fig) (fig_legend fig)
           (fig_xlim fig) (fig_ylim fig)).

Definition plt_xlabel (s : string) : M unit :=
  on_gcf (fun fig =>
    Figure (fig_contours fig) (fig_lines fig) (fig_hold fig)
           s (fig_ylabel fig) (fig_legend fig)
           (fig_xlim fig) (fig_ylim fig)).

Definition plt_ylabel (s : string) : M unit :=
  on_gcf (fun fig =>
    Figure (fig_contours fig) (fig_lines fig) (fig_hold fig)
           (fig_xlabel fig) s (fig_legend fig)
           (fig_xlim fig) (fig_ylim fig)).

(** [plt.legend(labels)]: the labels are given to the lines of the figure
    in the order they were drawn, one label per line; a label without a line
    gives no entry, so the legend of a figure without lines is empty. *)
Definition plt_legend (labels : list string) : M unit :=
  on_gcf (fun fig =>
    Figure (fig_contours fig) (fig_lines fig) (fig_hold fig)
           (fig_xlabel fig) (fig_ylabel fig)
           (Some (take (length (fig_lines fig)) labels))
           (fig_xlim fig) (fig_ylim fig)).

Definition plt_xlim (lo hi : Q) : M unit :=
  on_gcf (fun fig =>
    Figure (fig_contours fig) (fig_lines fig) (fig_hold fig)
           (fig_xlabel fig) (fig_ylabel fig) (fig_legend fig)
           (Some (lo, hi)) (fig_ylim fig)).

Definition plt_ylim (lo hi : Q) : M unit :=
  on_gcf (fun fig =>
    Figure (fig_contours fig) (fig_lines fig) (fig_hold fig)
           (fig_xlabel fig) (fig_ylabel fig) (fig_legend fig)
           (fig_xlim fig) (Some (lo, hi))).

(** [for x in xs: body] *)
Fixpoint for_each {A} (xs : list A) (body : A -> M unit) : M unit :=
  match xs with
  | [] => mret tt
  | x :: rest => body x ;; for_each rest body
  end.

(** ** [Lorenz] on objects

    The same function with its argument as a reference into the store, one
    store operation per statement; [Lorenz_obj_refines] relates it to
    [Lorenz]. *)
Definition Lorenz_obj (state : loc) (t sigma r b : Q) : M loc :=
  x ← getitem_obj state 0;
  y ← getitem_obj state 1;
  z ← getitem_obj state 2;
  let xd := sigma * (y - x) in
  let yd := (r - z) * x - y in
  let zd := x * y - b * z in
  new_list [xd; yd; zd].

(** ** Bifurcation diagrams (Bifurcations.ipynb, [bifurcation_plot]) *)

(** [numpy.sign] *)
Definition np_sign (q : Q) : Q :=
  match q ?= 0 with
  | Lt => -1
  | Eq => 0
  | Gt => 1
  end.

(** [numpy.meshgrid(r, x)]: two grids of shape [(len(x), len(r))]. *)
Definition np_meshgrid (r x : list Q) : list (list Q) * list (list Q) :=
  (replicate (length x) r, map (fun xj => replicate (length r) xj) x).

(** A function of two numbers applied to two grids, elementwise. *)
Definition grid_map2 (f : Q -> Q -> Q) (R X : list (list Q)) : list (list Q) :=
  zip_with (zip_with f) R X.

(** The two masks of a path and the vertices each keeps. *)
Definition stable_mask (f_x : Q -> Q -> Q) (vr vx : list Q) : list bool :=
  map (fun m => Qlt_bool m 0) (map np_sign (zip_with f_x vr vx)).

Definition unstable_mask (f_x : Q -> Q -> Q) (vr vx : list Q) : list bool :=
  map (fun m => Qlt_bool 0 m) (map np_sign (zip_with f_x vr vx)).

(** The body of the loop over the contour's paths. *)
Definition plot_branches (f_x : Q -> Q -> Q) (path : list (Q * Q)) : M unit :=
  let vr := map fst path in
  let vx := map snd path in
  let stable := stable_mask f_x vr vx in
  let unstable := unstable_mask f_x vr vx in
  (* plot the stable and unstable branches for each path *)
  sr ← lift (np_getmask vr stable);
  sx ← lift (np_getmask vx stable);
  plt_plot sr sx "b" ;;
  plt_hold true ;;
  ur ← lift (np_getmask vr unstable);
  ux ← lift (np_getmask vx unstable);
  plt_plot ur ux "b--".

(** The grid has at least two rows and every row at least two entries:
    what [plt.contour] asks of its third argument ("Input z must be at least
    a (2, 2) shaped array"). *)
Definition at_least_2x2 (F : list (list Q)) : bool :=
  (2 <=? length F)%nat && forallb (fun row => (2 <=? length row)%nat) F.

Section Contour.

(** The contouring routine of the plotting library is external: the paths of
    the zero level set of a grid, each a list of vertices [(vr, vx)], are a
    parameter here.  The model asks for it on grids of at least two rows and
    two columns only. *)
Variable zero_contour :
  list (list Q) -> list (list Q) -> list (list Q) -> list (list (Q * Q)).

(** [CS = plt.contour(R, X, F, [0])] with the paths that
    [CS.collections[0].get_paths()] gives afterwards.  On a grid of fewer
    than two rows or two columns the call raises TypeError and draws
    nothing. *)
Definition plt_contour_zero (R X F : list (list Q)) : M (list (list (Q * Q))) :=
  if at_least_2x2 F
  then let paths := zero_contour R X F in
       plt_contour paths ;;
       mret paths
  else raise TypeError.

Definition bifurcation_plot (f f_x : Q -> Q -> Q) (r x : loc)
  (rlabel : string) : M unit :=
  (* set up a mesh grid and extract the 0 level set of f *)
  rs ← load r;
  xs ← load x;
  let '(R, X) := np_meshgrid rs xs in
  plt_figure ;;
  paths ← plt_contour_zero R X (grid_map2 f R X);
  plt_clf ;;
  (* for each path in the contour extract vertices and mask by the sign
     of df/dx: [plot_branches] *)
  for_each paths (plot_branches f_x) ;;
  plt_xlabel ("parameter " +:+ rlabel) ;;
  plt_ylabel "x" ;;
  plt_legend ["stable"; "unstable"] ;;
  r_first ← getitem_obj r 0;
  r_last ← getitem_obj r (-1);
  plt_xlim r_first r_last ;;
  x_first ← getitem_obj x 0;
  x_last ← getitem_obj x (-1);
  plt_ylim x_first x_last.

End Contour.

(** The two lines [bifurcation_plot] draws for a path. *)
Definition branch_line (keep : Q * Q -> bool) (fmt : string)
  (path : list (Q * Q)) : line :=
  Line (map fst (List.filter keep path)) (map snd (List.filter keep path)) fmt.

Definition is_stable (f_x : Q -> Q -> Q) (v : Q * Q) : bool :=
  Qlt_bool (f_x v.1 v.2) 0.

Definition is_unstable (f_x : Q -> Q -> Q) (v : Q * Q) : bool :=
  Qlt_bool 0 (f_x v.1 v.2).

(** The vertices a line joins. *)
Definition line_vertices (l : line) : list (Q * Q) :=
  zip (line_x l) (line_y l).

(** Frame conditions on a statement: it leaves every object, or every figure,
    as it found it. *)
Definition keeps_heap {A} (m : M A) : Prop :=
  forall w, heap (m w).2 = heap w.

Definition keeps_figures {A} (m : M A) : Prop :=
  forall w, figures (m w).2 = figures w.

(** The figure after the branches of [paths] have been drawn into [fig]. *)
Definition with_branches (f_x : Q -> Q -> Q) (paths : list (list (Q * Q)))
  (fig : figure) : figure :=
  Figure (fig_contours fig)
         (fig_lines fig ++
          flat_map (fun path =>
                      [branch_line (is_stable f_x) "b" path;
                       branch_line (is_unstable f_x) "b--" path]) paths)
         true
         (fig_xlabel fig) (fig_ylabel fig) (fig_legend fig)
         (fig_xlim fig) (fig_ylim fig).

(** The paths [bifurcation_plot] gets for the arrays [rs] and [xs]: those of
    the zero contour of [f] on the mesh grid, and none where the contour
    call raises. *)
Definition contour_paths
  (zero_contour : list (list Q) -> list (list Q) -> list (list Q) ->
                  list (list (Q * Q)))
  (f : Q -> Q -> Q) (rs xs : list Q) : list (list (Q * Q)) :=
  let '(R, X) := np_meshgrid rs xs in
  if at_least_2x2 (grid_map2 f R X)
  then zero_contour R X (grid_map2 f R X)
  else [].

(** "For well-formed input no error branch is taken; for ill-formed input
    (empty r or x) the only failure is a raw out-of-bounds indexing
    failure": the outcome of a call on the arrays [rs] and [xs]. *)
Definition fails_only_by_index zero_contour (f f_x : Q -> Q -> Q)
  (r x : loc) (rlabel : string) (w : world) : Prop :=
  forall rs xs,
    heap w !! r = Some rs -> heap w !! x = Some xs ->
    (bifurcation_plot zero_contour f f_x r x rlabel w).1 =
    match rs, xs with
    | _ :: _, _ :: _ => Ok tt
    | _, _ => Raise IndexError
    end.

(** Example #1 of the notebook, the saddle-node bifurcation
    [f = lambda r,x: r + x*x], [f_x = lambda r,x: 2.*x], on a coarse grid,
    with vertices of the parabola [r = -x*x] as the zero contour. *)
Definition saddle_node_f (r x : Q) : Q := r + x * x.

Definition saddle_node_f_x (r x : Q) : Q := 2 * x.

Definition parabola_contour (R X F : list (list Q)) : list (list (Q * Q)) :=
  [[(-4, 2); (-1, 1); (0, 0); (-1, -1); (-4, -2)]].

Definition grid_world : world :=
  World {[1%positive := [-4; 0; 4]; 2%positive := [-4; 0; 4]]} [].

(** ** Stability of the fixed points (LorenzEquations.ipynb)

    The cell reads the globals [sigma] and [b]; they are arguments here. *)

(** [r_H = sigma*(sigma+b+3)/(sigma-b -1.)], "critical value of r at Hopf
    bifurcation". *)
Definition r_H (sigma b : Q) : Q := sigma * (sigma + b + 3) / (sigma - b - 1).

Section Sqrt.

(** [np.sqrt] has no rational values in general: it is a parameter. *)
Variable np_sqrt : Q -> Q.

(** [xstar = lambda r: np.sqrt(b*(r-1))] *)
Definition xstar (b r : Q) : Q := np_sqrt (b * (r - 1)).

(** [J = lambda r: np.array([[-sigma,sigma,0],[1,-1,-xstar(r)],
    [xstar(r),xstar(r),-b]])] *)
Definition J (sigma b r : Q) : list (list Q) :=
  [[- sigma; sigma; 0];
   [1; -1; - xstar b r];
   [xstar b r; xstar b r; - b]].

End Sqrt.

(** A matrix applied to a vector. *)
Definition np_dot (A : list (list Q)) (v : list Q) : list Q :=
  map (fun row => np_sum (zip_with Qmult row v)) A.

(** The coefficients of the characteristic polynomial
    [l^3 - trace3*l^2 + minors3*l - det3] of a 3 by 3 matrix; 0 on any other
    shape. *)
Definition trace3 (A : list (list Q)) : Q :=
  match A with
  | [[a11; _; _]; [_; a22; _]; [_; _; a33]] => a11 + a22 + a33
  | _ => 0
  end.

Definition minors3 (A : list (list Q)) : Q :=
  match A with
  | [[a11; a12; a13]; [a21; a22; a23]; [a31; a32; a33]] =>
      (a11 * a22 - a12 * a21) + (a11 * a33 - a13 * a31)
      + (a22 * a33 - a23 * a32)
  | _ => 0
  end.

Definition det3 (A : list (list Q)) : Q :=
  match A with
  | [[a11; a12; a13]; [a21; a22; a23]; [a31; a32; a33]] =>
      a11 * (a22 * a33 - a23 * a32)
      - a12 * (a21 * a33 - a23 * a31)
      + a13 * (a21 * a32 - a22 * a31)
  | _ => 0
  end.

(** ** The points of the Lorenz map *)

(** [plt.plot(Zn[:-2], Zn[1:-1], 'bo')]: the abscissae and the ordinates of
    the points of the Lorenz map. *)
Definition lorenz_map_points (zn : list Q) : list Q * list Q :=
  (py_slice zn None (Some (-2)%Z), py_slice zn (Some 1%Z) (Some (-1)%Z)).

(** ** The fitting window of the Liapunov estimate (LorenzEquations.ipynb)

    The cell fixes [tmin = 1.] and [tmax = 12.]; they are arguments here. *)

(** [int(np.argwhere(mask)[-1])] and [int(np.argwhere(mask)[0])]: the last
    and the first position that holds True; the subscript raises IndexError
    when no position does. *)
Definition argwhere_last (mask : list bool) : result nat :=
  match last (np_nonzero mask) with
  | Some i => Ok i
  | None => Raise IndexError
  end.

Definition argwhere_first (mask : list bool) : result nat :=
  match np_nonzero mask with
  | i :: _ => Ok i
  | [] => Raise IndexError
  end.

(** [imin = int(np.argwhere(t<tmin)[-1])] *)
Definition imin (t : list Q) (tmin : Q) : result nat :=
  argwhere_last (map (fun v => Qlt_bool v tmin) t).

(** [imax = int(np.argwhere(t>tmax)[0])] *)
Definition imax (t : list Q) (tmax : Q) : result nat :=
  argwhere_first (map (fun v => Qlt_bool tmax v) t).

(** [tfit = t[imin:imax]] *)
Definition tfit (t : list Q) (tmin tmax : Q) : result (list Q) :=
  i ← imin t tmin;
  j ← imax t tmax;
  Ok (py_slice t (Some (Z.of_nat i)) (Some (Z.of_nat j))).

(** A time grid that never steps back. *)
Definition nondecreasing (t : list Q) : Prop :=
  forall (i j : nat) a b,
    (i <= j)%nat -> t !! i = Some a -> t !! j = Some b -> a <= b.

(** ** The figure [bifurcation_plot] leaves *)

(** The limits [(a[0], a[-1])] of an axis, from the array [a]. *)
Definition axis_limits (a : list Q) : option (Q * Q) :=
  match a with
  | [] => None
  | a0 :: a' => Some (a0, List.last a' a0)
  end.

(** The entries of the legend: the two labels when a line was drawn, none
    when the contour has no path. *)
Definition legend_entries (paths : list (list (Q * Q))) : list string :=
  match paths with
  | [] => []
  | _ :: _ => ["stable"; "unstable"]
  end.

(** The figure of a run that returns, on the arrays [rs] and [xs]. *)
Definition diagram zero_contour (f f_x : Q -> Q -> Q) (rs xs : list Q)
  (rlabel : string) : figure :=
  Figure []
         (flat_map (fun path =>
                      [branch_line (is_stable f_x) "b" path;
                       branch_line (is_unstable f_x) "b--" path])
                   (contour_paths zero_contour f rs xs))
         true
         ("parameter " +:+ rlabel) "x"
         (Some (legend_entries (contour_paths zero_contour f rs xs)))
         (axis_limits rs) (axis_limits xs).

(** A vertex at which the slope is exactly zero. *)
Definition is_neutral (f_x : Q -> Q -> Q) (v : Q * Q) : bool :=
  Qeq_bool (f_x v.1 v.2) 0.

(** ** The examples of Bifurcations.ipynb

    Example #1 is [saddle_node_f], [saddle_node_f_x] above. *)

(** Example #2: [f = lambda h,x: x*(1-x) - h], [f_x = lambda h,x: 1. - 2.*x] *)
Definition harvest_f (h x : Q) : Q := x * (1 - x) - h.

Definition harvest_f_x (h x : Q) : Q := 1 - 2 * x.

(** Example #3: [f = lambda r,x: r*x - x*x], [f_x = lambda r,x: r - 2.*x] *)
Definition transcritical_f (r x : Q) : Q := r * x - x * x.

Definition transcritical_f_x (r x : Q) : Q := r - 2 * x.

(** Example #4: [f = lambda r,x: r*x - x**3],
    [f_x = lambda r,x: r - 3.*x**2] *)
Definition supercritical_f (r x : Q) : Q := r * x - x ^ 3.

Definition supercritical_f_x (r x : Q) : Q := r - 3 * x ^ 2.

(** The second example #4: [f = lambda r,x: r*x + x**3],
    [f_x = lambda r,x: r + 3.*x**2] *)
Definition subcritical_f (r x : Q) : Q := r * x + x ^ 3.

Definition subcritical_f_x (r x : Q) : Q := r + 3 * x ^ 2.

(** Example #6: [f = lambda r,x: r*x + x**3 - x**5],
    [f_x = lambda r,x: r + 3.*x**2 -5.*x**4] *)
Definition stabilized_f (r x : Q) : Q := r * x + x ^ 3 - x ^ 5.

Definition stabilized_f_x (r x : Q) : Q := r + 3 * x ^ 2 - 5 * x ^ 4.

(** * Theorems *)

(** ** Indexing and slicing *)

Lemma getitem_nat {A} (l : list A) (i : nat) :
  getitem l (Z.of_nat i) =
  match l !! i with Some v => Ok v | None => Raise IndexError end.
Proof.
  unfold getitem.
  destruct (Z.ltb_spec (Z.of_nat i) 0) as [Hneg|_]; [lia|].
  destruct (Z.leb_spec 0 (Z.of_nat i)) as [_|Hneg]; [|lia].
  rewrite Nat2Z.id. simpl.
  destruct (Z.ltb_spec (Z.of_nat i) (Z.of_nat (length l))) as [Hlt|Hge].
  - reflexivity.
  - rewrite (lookup_ge_None_2 l i) by lia. reflexivity.
Qed.

Lemma clip_nonneg (n k : nat) : clip n (Z.of_nat k) = Nat.min k n.
Proof.
  unfold clip. destruct (Z.ltb_spec (Z.of_nat k) 0) as [H|_]; [lia|].
  now rewrite Nat2Z.id.
Qed.

Lemma clip_neg (n k : nat) :
  (0 < k)%nat -> clip n (- Z.of_nat k) = (n - k)%nat.
Proof.
  intros Hk. unfold clip.
  destruct (Z.ltb_spec (- Z.of_nat k) 0) as [_|H]; lia.
Qed.

Lemma getitem_nil {A} (i : Z) : getitem (A:=A) [] i = Raise IndexError.
Proof.
  unfold getitem. simpl length.
  destruct (i <? 0)%Z;
    destruct (Z.leb_spec 0 (i + Z.of_nat 0)), (Z.ltb_spec (i + Z.of_nat 0) (Z.of_nat 0)),
             (Z.leb_spec 0 i), (Z.ltb_spec i (Z.of_nat 0));
    simpl in *; try reflexivity; lia.
Qed.

Lemma getitem_last {A} (l : list A) :
  l <> [] -> exists v, getitem l (-1) = Ok v.
Proof.
  intros Hne. unfold getitem.
  assert (Hlen : (0 < length l)%nat) by (destruct l; [done | simpl; lia]).
  change (-1 <? 0)%Z with true. cbv beta iota zeta.
  destruct (Z.leb_spec 0 (-1 + Z.of_nat (length l))) as [_|H]; [|lia].
  destruct (Z.ltb_spec (-1 + Z.of_nat (length l)) (Z.of_nat (length l)))
    as [_|H]; [|lia].
  simpl.
  destruct (lookup_lt_is_Some_2 l (Z.to_nat (-1 + Z.of_nat (length l))))
    as [v Hv]; [lia|].
  rewrite Hv. eauto.
Qed.

Lemma List_last_cons {A} (y : A) (l : list A) (v : A) :
  List.last (y :: l) v = List.last l y.
Proof.
  revert y v. induction l as [|z l IH]; intros y v; [reflexivity|].
  change (List.last (y :: z :: l) v) with (List.last (z :: l) v).
  by rewrite (IH z v), (IH z y).
Qed.

Lemma lookup_last_index {A} (v : A) (l : list A) :
  (v :: l) !! length l = Some (List.last l v).
Proof.
  revert v. induction l as [|y l IH]; intros v; [reflexivity|].
  change ((v :: y :: l) !! length (y :: l)) with ((y :: l) !! length l).
  by rewrite IH, List_last_cons.
Qed.

Lemma getitem_last_value {A} (v : A) (l : list A) :
  getitem (v :: l) (-1) = Ok (List.last l v).
Proof.
  unfold getitem. change (-1 <? 0)%Z with true. cbv beta iota zeta.
  destruct (Z.leb_spec 0 (-1 + Z.of_nat (length (v :: l)))) as [_|H];
    [|simpl in H; lia].
  destruct (Z.ltb_spec (-1 + Z.of_nat (length (v :: l)))
                       (Z.of_nat (length (v :: l)))) as [_|H]; [|lia].
  replace (Z.to_nat (-1 + Z.of_nat (length (v :: l)))) with (length l)
    by (simpl; lia).
  by rewrite lookup_last_index.
Qed.

Lemma py_slice_pos_neg {A} (l : list A) (a b : nat) :
  (0 < b)%nat ->
  py_slice l (Some (Z.of_nat a)) (Some (- Z.of_nat b)%Z) =
  take (length l - b - Nat.min a (length l)) (drop (Nat.min a (length l)) l).
Proof.
  intros Hb. unfold py_slice, slice_start, slice_stop.
  by rewrite clip_nonneg, clip_neg.
Qed.

Lemma py_slice_none_neg {A} (l : list A) (b : nat) :
  (0 < b)%nat ->
  py_slice l None (Some (- Z.of_nat b)%Z) = take (length l - b) l.
Proof.
  intros Hb. unfold py_slice, slice_start, slice_stop.
  rewrite clip_neg by done. by rewrite Nat.sub_0_r, drop_0.
Qed.

(** ** The numpy operations *)

Lemma np_binop_same_length {A} (op : A -> A -> A) (a b : list A) :
  length a = length b -> np_binop op a b = Ok (zip_with op a b).
Proof.
  intros Hlen. unfold np_binop.
  destruct a as [|x [|x' a]], b as [|y [|y' b]]; simpl in *;
    try discriminate; try reflexivity.
  case_decide; [reflexivity|]. simpl in *. congruence.
Qed.

Lemma np_setslice_same_length {A} (a v : list A) (lo hi : option Z) :
  let s := slice_start (length a) lo in
  let e := slice_stop (length a) hi in
  length v = (e - s)%nat ->
  np_setslice a lo hi v = Ok (take s a ++ v ++ drop (s + (e - s)) a).
Proof.
  intros s e Hlen. unfold np_setslice. fold s e.
  case_decide; [reflexivity | contradiction].
Qed.

Lemma nonzero_from_filter (mask : list bool) (k : nat) :
  nonzero_from k mask =
  List.filter (fun i => bool_decide (mask !! (i - k)%nat = Some true))
              (seq k (length mask)).
Proof.
  revert k. induction mask as [|b rest IH]; intros k; simpl; [reflexivity|].
  rewrite Nat.sub_diag. simpl. rewrite IH.
  assert (Hext : List.filter
            (fun i => bool_decide (rest !! (i - S k)%nat = Some true))
            (seq (S k) (length rest)) =
          List.filter
            (fun i => bool_decide ((b :: rest) !! (i - k)%nat = Some true))
            (seq (S k) (length rest))).
  { apply List.filter_ext_in. intros i Hi. apply in_seq in Hi.
    replace (i - k)%nat with (S (i - S k)) by lia. reflexivity. }
  rewrite Hext. destruct b; reflexivity.
Qed.

Lemma np_getmask_map {A} (p : A -> bool) (a : list A) :
  np_getmask a (map p a) = Ok (List.filter p a).
Proof.
  induction a as [|v a IH]; simpl; [reflexivity|].
  rewrite IH. simpl. destruct (p v); reflexivity.
Qed.

Lemma Qlt_bool_iff (x y : Q) : Qlt_bool x y = true <-> x < y.
Proof.
  unfold Qlt_bool. rewrite Qlt_alt. destruct (x ?= y); split; congruence.
Qed.

Lemma np_take_total {A} `{!Inhabited A} (a : list A) (idx : list nat) :
  Forall (fun i => (i < length a)%nat) idx ->
  np_take a idx = Ok (map (fun i => a !!! i) idx).
Proof.
  induction 1 as [|i rest Hi _ IH]; simpl; [reflexivity|].
  destruct (lookup_lt_is_Some_2 a i Hi) as [v Hv].
  rewrite getitem_nat, Hv, IH. simpl.
  by rewrite (list_lookup_total_correct _ _ _ Hv).
Qed.

Lemma Qle_bool_true (x y : Q) : x <= y -> Qle_bool x y = true.
Proof. apply Qle_bool_iff. Qed.

(** ** The Lorenz right-hand side *)

Example Lorenz_X0 :
  Lorenz [2; 3; 4] 0 10 (1 # 2) (8 # 3) =
  Ok [10 * (3 - 2); ((1 # 2) - 4) * 2 - 3; 2 * 3 - (8 # 3) * 4].
Proof. reflexivity. Qed.

Example Lorenz_short_state : Lorenz [2; 3] 0 10 28 (8 # 3) = Raise IndexError.
Proof. reflexivity. Qed.

Lemma Lorenz_cases (state : list Q) (t sigma r b : Q) :
  Lorenz state t sigma r b =
  match state with
  | x :: y :: z :: _ => Ok [sigma * (y - x); (r - z) * x - y; x * y - b * z]
  | _ => Raise IndexError
  end.
Proof.
  unfold Lorenz.
  change 0%Z with (Z.of_nat 0). change 1%Z with (Z.of_nat 1).
  change 2%Z with (Z.of_nat 2). rewrite !getitem_nat.
  destruct state as [|x [|y [|z rest]]]; reflexivity.
Qed.

(** C1. On a state [[x, y, z]] the function returns the list
    [[sigma*(y-x), (r-z)*x - y, x*y - b*z]], and its second component equals
    the classical form [r*x - y - x*z] in exact arithmetic. *)
Theorem Lorenz_classical_rhs (x y z t sigma r b : Q) :
  Lorenz [x; y; z] t sigma r b =
    Ok [sigma * (y - x); (r - z) * x - y; x * y - b * z] /\
  (r - z) * x - y == r * x - y - x * z.
Proof.
  split; [apply Lorenz_cases | ring].
Qed.

(** C10. The time argument is not used: at any two times the function
    returns the same result on the same state and parameters, on values and
    on objects. *)
Theorem Lorenz_autonomous (state : list Q) (st : loc) (t1 t2 sigma r b : Q) :
  Lorenz state t1 sigma r b = Lorenz state t2 sigma r b /\
  Lorenz_obj st t1 sigma r b = Lorenz_obj st t2 sigma r b.
Proof. split; reflexivity. Qed.

(** ** Integrating the system *)

Lemma Lorenz_three (y : list Q) (s sigma r b : Q) :
  length y = 3%nat ->
  exists d, Lorenz y s sigma r b = Ok d /\ length d = 3%nat.
Proof.
  intros Hlen. rewrite Lorenz_cases.
  destruct y as [|y0 [|y1 [|y2 rest]]]; try discriminate. eauto.
Qed.

Lemma odeint_Lorenz lsoda (state0 t : list Q) (sigma r b : Q) :
  length state0 = 3%nat ->
  odeint lsoda (fun state t => Lorenz state t sigma r b) state0 t =
  if monotone_grid t
  then match t with
       | [] => Ok []
       | _ :: rest =>
           Ok (state0 ::
               map (fun k => vec_to_list
                               (lsoda (fun state t => Lorenz state t sigma r b)
                                      state0 t k))
                   (seq 1 (length rest)))
       end
  else Raise ValueError.
Proof.
  intros Hlen. unfold odeint.
  destruct (monotone_grid t); [|reflexivity].
  destruct t as [|t0 rest]; [reflexivity|].
  destruct (Lorenz_three state0 t0 sigma r b Hlen) as [d [Hd Hd3]].
  rewrite Hd. simpl. case_decide; [reflexivity | congruence].
Qed.

(** C7 (as amended). On a 3-component initial condition and a non-empty time
    array that is monotone, [SolveLorenz] returns a trajectory of shape
    [(len(t), 3)], one 3-component state per time, whose first row is the
    initial condition; on a time array that is not monotone [odeint] raises
    ValueError and [SolveLorenz] returns nothing. *)
Theorem SolveLorenz_shape_on_monotone_grid lsoda (state0 t : list Q)
  (sigma r b : Q) :
  length state0 = 3%nat -> t <> [] ->
  if monotone_grid t
  then returns_trajectory lsoda state0 t sigma r b
  else SolveLorenz lsoda state0 t sigma r b = Raise ValueError.
Proof.
  intros Hlen Hne.
  unfold returns_trajectory, SolveLorenz. rewrite odeint_Lorenz by done.
  destruct (monotone_grid t); [|reflexivity].
  destruct t as [|t0 rest]; [done|].
  eexists. split; [reflexivity|].
  split; [simpl; by rewrite length_map, length_seq|].
  split; [|reflexivity].
  constructor; [exact Hlen|].
  apply Forall_forall. intros row Hrow.
  apply list_elem_of_In, in_map_iff in Hrow as [k [<- _]].
  by rewrite length_vec_to_list.
Qed.

Lemma SolveLorenz_shape_on_monotone_grid_witness :
  returns_trajectory hold_state [2; 3; 4] [0; 1 # 100; 2 # 100]
                     10 (1 # 2) (8 # 3).
Proof.
  apply (SolveLorenz_shape_on_monotone_grid hold_state [2; 3; 4]
           [0; 1 # 100; 2 # 100] 10 (1 # 2) (8 # 3));
    [reflexivity | discriminate].
Defined.

(** C7, the claim as stated fails: the time array [0, 1, 0] is not empty and
    is not monotone; [odeint] refuses it, and [SolveLorenz] raises
    ValueError on the 3-component initial condition [2, 3, 4]. *)
Lemma SolveLorenz_refuses_time_stepping_back :
  ~ returns_trajectory hold_state [2; 3; 4] [0; 1; 0] 10 28 (8 # 3).
Proof.
  intros [traj [Hrun _]]. discriminate.
Qed.

Example SolveLorenz_time_stepping_back :
  SolveLorenz hold_state [2; 3; 4] [0; 1; 0] 10 28 (8 # 3) = Raise ValueError.
Proof. reflexivity. Qed.

Example SolveLorenz_two_times :
  SolveLorenz hold_state [2; 3; 4] [0; 1 # 10] 10 (1 # 2) (8 # 3) =
  Ok [[2; 3; 4]; [2; 3; 4]].
Proof. reflexivity. Qed.

Example SolveLorenz_four_components :
  SolveLorenz hold_state [2; 3; 4; 5] [0; 1 # 10] 10 (1 # 2) (8 # 3) =
  Raise RuntimeError.
Proof. reflexivity. Qed.

(** ** The Lorenz map cell *)

Lemma dZ_total (Zs : list Q) :
  dZ Zs = Ok (map (dZ_entry Zs) (seq 0 (length Zs))).
Proof.
  unfold dZ.
  change (Some 2%Z) with (Some (Z.of_nat 2)).
  change (Some 0%Z) with (Some (Z.of_nat 0)).
  change (Some (-1)%Z) with (Some (- Z.of_nat 1)%Z).
  change (Some (-3)%Z) with (Some (- Z.of_nat 3)%Z).
  rewrite !py_slice_pos_neg by lia.
  destruct Zs as [|z0 [|z1 [|z2 rest]]]; [reflexivity..|].
  set (Zs := z0 :: z1 :: z2 :: rest).
  assert (Hn : length Zs = S (S (S (length rest)))) by reflexivity.
  set (m := length rest) in *.
  replace (length Zs - 1 - Nat.min 2 (length Zs))%nat with m by lia.
  replace (length Zs - 3 - Nat.min 0 (length Zs))%nat with m by lia.
  replace (Nat.min 2 (length Zs)) with 2%nat by lia.
  replace (Nat.min 0 (length Zs)) with 0%nat by lia.
  rewrite drop_0.
  rewrite np_binop_same_length
    by (rewrite !length_take, length_drop; lia).
  unfold mbind, result_bind.
  rewrite np_setslice_same_length; cycle 1.
  { unfold np_zeros. rewrite length_replicate, length_zip_with.
    rewrite !length_take, length_drop. unfold slice_start, slice_stop.
    change 1%Z with (Z.of_nat 1). change (-2)%Z with (- Z.of_nat 2)%Z.
    rewrite clip_nonneg, clip_neg by lia. lia. }
  f_equal. unfold np_zeros. rewrite length_replicate.
  unfold slice_start, slice_stop.
  change 1%Z with (Z.of_nat 1). change (-2)%Z with (- Z.of_nat 2)%Z.
  rewrite clip_nonneg, clip_neg by lia.
  replace (Nat.min 1 (length Zs)) with 1%nat by lia.
  replace (length Zs - 2 - 1)%nat with m by lia.
  apply list_eq. intros i.
  rewrite list_lookup_fmap.
  destruct (decide (i < length Zs)%nat) as [Hi|Hi]; cycle 1.
  { rewrite (lookup_ge_None_2 (seq _ _)) by (rewrite length_seq; lia).
    apply lookup_ge_None_2.
    rewrite !length_app, length_take, length_zip_with, !length_take,
      !length_drop, length_replicate. lia. }
  rewrite lookup_seq_lt by done.
  change (dZ_entry Zs <$> Some (0 + i)%nat) with (Some (dZ_entry Zs i)).
  unfold dZ_entry. case_decide as Hint.
  - (* interior: the centred difference *)
    destruct (lookup_lt_is_Some_2 Zs (i + 1)) as [u Hu]; [lia|].
    destruct (lookup_lt_is_Some_2 Zs (i - 1)) as [w Hw]; [lia|].
    rewrite (list_lookup_total_correct _ _ _ Hu),
      (list_lookup_total_correct _ _ _ Hw).
    rewrite lookup_app_r by (rewrite length_take, length_replicate; lia).
    rewrite length_take, length_replicate.
    replace (i - Nat.min 1 (length Zs))%nat with (i - 1)%nat by lia.
    rewrite lookup_app_l
      by (rewrite length_zip_with, !length_take, length_drop; lia).
    rewrite lookup_zip_with, !lookup_take_lt, lookup_drop by lia.
    replace (2 + (i - 1))%nat with (i + 1)%nat by lia.
    by rewrite Hu, Hw.
  - (* boundary: the zero the array was created with *)
    destruct (decide (i = 0)%nat) as [->|Hne].
    + rewrite lookup_app_l by (rewrite length_take, length_replicate; lia).
      rewrite lookup_take_lt by lia. apply lookup_replicate_2. lia.
    + rewrite lookup_app_r by (rewrite length_take, length_replicate; lia).
      rewrite length_take, length_replicate.
      rewrite lookup_app_r
        by (rewrite length_zip_with, !length_take, length_drop; lia).
      rewrite length_zip_with, !length_take, length_drop.
      rewrite lookup_drop. apply lookup_replicate_2. lia.
Qed.

Lemma dZ_lookup (Zs : list Q) (i : nat) :
  (i < length Zs)%nat ->
  map (dZ_entry Zs) (seq 0 (length Zs)) !! i = Some (dZ_entry Zs i).
Proof.
  intros Hi. change (map (dZ_entry Zs)) with (fmap (M:=list) (dZ_entry Zs)).
  by rewrite list_lookup_fmap, lookup_seq_lt.
Qed.

Lemma icross_total (Zs : list Q) :
  icross Zs = Ok (crossings Zs).
Proof.
  unfold icross, crossings. rewrite dZ_total. unfold mbind at 1, result_bind at 1.
  set (d := map (dZ_entry Zs) (seq 0 (length Zs))).
  assert (Hd : length d = length Zs)
    by (unfold d; by rewrite length_map, length_seq).
  change (Some 1%Z) with (Some (Z.of_nat 1)).
  change (Some (-1)%Z) with (Some (- Z.of_nat 1)%Z).
  change (Some (-2)%Z) with (Some (- Z.of_nat 2)%Z).
  rewrite py_slice_pos_neg, py_slice_none_neg by lia. rewrite Hd.
  rewrite np_binop_same_length
    by (rewrite !length_take, length_drop, Hd; lia).
  unfold mbind, result_bind. f_equal.
  unfold np_nonzero. rewrite nonzero_from_filter.
  rewrite length_map, length_zip_with, !length_take, length_drop, Hd.
  replace (Nat.min (Nat.min (length Zs - 2) (length Zs))
             (Nat.min (length Zs - 1 - Nat.min 1 (length Zs))
                (length Zs - Nat.min 1 (length Zs))))
    with (length Zs - 2)%nat by lia.
  apply List.filter_ext_in. intros i Hi. apply in_seq in Hi.
  rewrite Nat.sub_0_r.
  change (map (fun v => Qle_bool v 0)) with (fmap (M:=list) (fun v => Qle_bool v 0)).
  rewrite list_lookup_fmap, lookup_zip_with.
  rewrite !lookup_take_lt, lookup_drop by lia.
  replace (Nat.min 1 (length Zs) + i)%nat with (i + 1)%nat by lia.
  unfold d. rewrite !dZ_lookup by lia. simpl.
  unfold cross_at. destruct (Qle_bool _ 0).
  - by apply bool_decide_eq_true_2.
  - by apply bool_decide_eq_false_2.
Qed.

Lemma elem_of_crossings (Zs : list Q) (i : nat) :
  i ∈ crossings Zs <->
  (i + 3 <= length Zs)%nat /\ dZ_entry Zs i * dZ_entry Zs (i + 1) <= 0.
Proof.
  unfold crossings. rewrite list_elem_of_In, List.filter_In, in_seq.
  unfold cross_at. rewrite Qle_bool_iff. intuition lia.
Qed.

Lemma crossings_in_range (Zs : list Q) :
  Forall (fun i => (i < length Zs)%nat) (crossings Zs).
Proof.
  apply Forall_forall. intros i Hi. apply elem_of_crossings in Hi. lia.
Qed.

Lemma Zextreme_total (Zs : list Q) :
  Zextreme Zs = Ok (map (fun i => Zs !!! i) (crossings Zs)).
Proof.
  unfold Zextreme. rewrite icross_total. unfold mbind, result_bind.
  apply np_take_total, crossings_in_range.
Qed.

Lemma Zn_total (Zs : list Q) :
  Zn Zs = Ok (List.filter (fun v => Qlt_bool (meanZ Zs) v)
                (map (fun i => Zs !!! i) (crossings Zs))).
Proof.
  unfold Zn. rewrite Zextreme_total. unfold mbind, result_bind.
  apply np_getmask_map.
Qed.

Lemma dZ_entry_first (Zs : list Q) : dZ_entry Zs 0 = 0.
Proof. unfold dZ_entry. case_decide; [lia | reflexivity]. Qed.

(** C4 (as amended). The steps of the peak extraction: [dZ] holds the centred
    difference [Z[i+1] - Z[i-1]] at the indices 1 .. len(Z)-3 and 0 at the
    boundary indices; [icross] is exactly the indices [i] between 0 and
    len(Z)-3 with [dZ[i]*dZ[i+1] <= 0]; [Zextreme] is [Z] at those indices;
    [Zn] keeps exactly the values strictly greater than the mean of [Z]. *)
Theorem peak_extraction_steps (Zs : list Q) :
  dZ Zs = Ok (map (dZ_entry Zs) (seq 0 (length Zs))) /\
  icross Zs = Ok (crossings Zs) /\
  (forall i : nat,
     i ∈ crossings Zs <->
     (i + 3 <= length Zs)%nat /\ dZ_entry Zs i * dZ_entry Zs (i + 1) <= 0) /\
  Zextreme Zs = Ok (map (fun i => Zs !!! i) (crossings Zs)) /\
  Zn Zs = Ok (List.filter (fun v => Qlt_bool (meanZ Zs) v)
                (map (fun i => Zs !!! i) (crossings Zs))) /\
  (forall v, Qlt_bool (meanZ Zs) v = true <-> np_mean Zs < v).
Proof.
  split; [apply dZ_total|].
  split; [apply icross_total|].
  split; [apply elem_of_crossings|].
  split; [apply Zextreme_total|].
  split; [apply Zn_total|].
  intros v. apply Qlt_bool_iff.
Qed.

(** C4, the claim as stated fails: on the series [0, 1, 2, 3] the last pair
    of the derivative array, [dZ[2]*dZ[3] = 0*0], passes the test, and the
    index 2 is not selected. *)
Lemma sign_crossing_last_pair_skipped :
  ~ selects_every_sign_crossing [0; 1; 2; 3].
Proof.
  intros Hall.
  specialize (Hall [0; 2 - 0; 0; 0] [0; 1]%nat eq_refl eq_refl 2%nat).
  destruct Hall as [_ Hsel].
  assert (Hin : 2%nat ∈ [0; 1]%nat).
  { apply Hsel. exists 0, 0. repeat split. discriminate. }
  rewrite !elem_of_cons, elem_of_nil in Hin.
  destruct Hin as [Hin | [Hin | []]]; discriminate.
Qed.

Example dZ_ramp : dZ [0; 1; 2; 3] = Ok [0; 2 - 0; 0; 0].
Proof. reflexivity. Qed.

Example icross_ramp : icross [0; 1; 2; 3] = Ok [0; 1]%nat.
Proof. reflexivity. Qed.

Lemma falling_crossing_brackets_peak (Zs : list Q) (i : nat) :
  0 < dZ_entry Zs i -> dZ_entry Zs (i + 1) < 0 ->
  local_max_at Zs i = true \/ local_max_at Zs (i + 1) = true.
Proof.
  unfold dZ_entry. intros Hup Hdown.
  destruct (decide (1 <= i /\ i + 3 <= length Zs)%nat) as [Hi|Hi];
    [|by apply Qlt_irrefl in Hup].
  destruct (decide (1 <= i + 1 /\ i + 1 + 3 <= length Zs)%nat) as [Hi'|Hi'];
    [|by apply Qlt_irrefl in Hdown].
  destruct i as [|j]; [lia|].
  replace (S j - 1)%nat with j in Hup by lia.
  replace (S j + 1 + 1)%nat with (S (S (S j))) in Hdown by lia.
  replace (S j + 1 - 1)%nat with (S j) in Hdown by lia.
  replace (S j + 1)%nat with (S (S j)) in * by lia.
  destruct (lookup_lt_is_Some_2 Zs j) as [a Ha]; [lia|].
  destruct (lookup_lt_is_Some_2 Zs (S j)) as [b Hb]; [lia|].
  destruct (lookup_lt_is_Some_2 Zs (S (S j))) as [c Hc]; [lia|].
  destruct (lookup_lt_is_Some_2 Zs (S (S (S j)))) as [e He]; [lia|].
  rewrite (list_lookup_total_correct _ _ _ Ha),
    (list_lookup_total_correct _ _ _ Hc) in Hup.
  rewrite (list_lookup_total_correct _ _ _ Hb),
    (list_lookup_total_correct _ _ _ He) in Hdown.
  unfold local_max_at. rewrite Hb, Hc, Ha, He.
  destruct (Qlt_le_dec b c) as [Hbc|Hcb].
  - right. rewrite !Qle_bool_true; [reflexivity | lra | lra].
  - left. rewrite !Qle_bool_true; [reflexivity | lra | lra].
Qed.

(** C2 (as amended). Every value the heuristic selects is a sample [Z[i]]
    that exceeds the mean of [Z], taken at an index [i] between 0 and
    len(Z)-3 where the derivative estimate changes sign or vanishes
    ([dZ[i]*dZ[i+1] <= 0]); where the estimate falls from positive at [i] to
    negative at [i+1], the sample [i] or its right neighbour is a local
    maximum of the series. *)
Theorem Zn_selects_crossings_above_mean (Zs : list Q) :
  (exists zn, Zn Zs = Ok zn /\
     forall v, v ∈ zn ->
       exists i : nat,
         (i + 3 <= length Zs)%nat /\ Zs !! i = Some v /\
         meanZ Zs < v /\
         dZ_entry Zs i * dZ_entry Zs (i + 1) <= 0) /\
  (forall i : nat,
     0 < dZ_entry Zs i -> dZ_entry Zs (i + 1) < 0 ->
     local_max_at Zs i = true \/ local_max_at Zs (i + 1) = true).
Proof.
  split; [|apply falling_crossing_brackets_peak].
  eexists. split; [apply Zn_total|].
  intros v Hv. apply list_elem_of_In, List.filter_In in Hv as [Hv Hmean].
  apply in_map_iff in Hv as [i [Hiv Hi]].
  apply list_elem_of_In, elem_of_crossings in Hi as [Hrange Hcross].
  exists i. split; [exact Hrange|].
  destruct (lookup_lt_is_Some_2 Zs i) as [u Hu]; [lia|].
  rewrite (list_lookup_total_correct _ _ _ Hu) in Hiv. subst u.
  split; [exact Hu|]. split; [by apply Qlt_bool_iff | exact Hcross].
Qed.

Lemma Zn_selects_crossings_above_mean_witness :
  0 < dZ_entry [0; 5; 7; 4; 0; 0; 0] 1 /\
  dZ_entry [0; 5; 7; 4; 0; 0; 0] (1 + 1) < 0 /\
  (local_max_at [0; 5; 7; 4; 0; 0; 0] 1 = true \/
   local_max_at [0; 5; 7; 4; 0; 0; 0] (1 + 1) = true).
Proof.
  assert (Hup : 0 < dZ_entry [0; 5; 7; 4; 0; 0; 0] 1) by reflexivity.
  assert (Hdown : dZ_entry [0; 5; 7; 4; 0; 0; 0] (1 + 1) < 0) by reflexivity.
  split; [exact Hup|]. split; [exact Hdown|].
  exact (proj2 (Zn_selects_crossings_above_mean [0; 5; 7; 4; 0; 0; 0])
           1%nat Hup Hdown).
Defined.

(** C2, the claim as stated fails: on the series [0, 0, 5, 6, 0, 0, 0, 0]
    the derivative estimate changes sign between the samples 2 and 3, the
    heuristic selects the sample 2, of value 5, and its neighbour 6 is
    larger; no sample of value 5 is a local maximum of the series. *)
Lemma selected_sample_below_neighbour :
  ~ selects_local_maxima [0; 0; 5; 6; 0; 0; 0; 0].
Proof.
  intros Hall.
  specialize (Hall [5] eq_refl 5 (list_elem_of_here 5 [])).
  discriminate.
Qed.

Example Zn_rising_flank :
  dZ [0; 0; 5; 6; 0; 0; 0; 0] =
    Ok [0; 5 - 0; 6 - 0; 0 - 5; 0 - 6; 0 - 0; 0; 0] /\
  icross [0; 0; 5; 6; 0; 0; 0; 0] = Ok [0; 2; 4; 5]%nat /\
  Zextreme [0; 0; 5; 6; 0; 0; 0; 0] = Ok [0; 5; 0; 0] /\
  Zn [0; 0; 5; 6; 0; 0; 0; 0] = Ok [5].
Proof. repeat split. Qed.

Example Zn_first_sample :
  Zn [5; 6; 0; 0; 0] = Ok [5] /\ is_local_max [5; 6; 0; 0; 0] 5 = false.
Proof. split; reflexivity. Qed.

(** ** The Lorenz map cell in double precision *)

Lemma SFcompare_finite_refl (s : bool) (m : positive) (e : Z) :
  SFcompare (S754_finite s m e) (S754_finite s m e) = Some Eq.
Proof.
  unfold SFcompare. rewrite Z.compare_refl, Pos.compare_cont_refl.
  by destruct s.
Qed.

(** [0 * x <= 0] holds exactly for the finite [x]: the product is a zero
    then, and nan when [x] is an infinity or nan. *)
Lemma zero_mul_leb_zero (x : float) :
  PrimFloat.leb (PrimFloat.mul 0%float x) 0%float = PrimFloat.is_finite x.
Proof.
  unfold is_finite, is_nan, is_infinity.
  rewrite FloatAxioms.leb_spec, FloatAxioms.mul_spec,
    !FloatAxioms.eqb_spec, FloatAxioms.abs_spec.
  change (Prim2SF 0%float) with (S754_zero false).
  change (Prim2SF infinity) with (S754_infinity false).
  destruct (Prim2SF x) as [s|s| |s m e];
    try reflexivity; try (by destruct s).
  unfold SFeqb. rewrite SFcompare_finite_refl. reflexivity.
Qed.

Lemma mul_zero_leb_zero (x : float) :
  PrimFloat.leb (PrimFloat.mul x 0%float) 0%float = PrimFloat.is_finite x.
Proof.
  unfold is_finite, is_nan, is_infinity.
  rewrite FloatAxioms.leb_spec, FloatAxioms.mul_spec,
    !FloatAxioms.eqb_spec, FloatAxioms.abs_spec.
  change (Prim2SF 0%float) with (S754_zero false).
  change (Prim2SF infinity) with (S754_infinity false).
  destruct (Prim2SF x) as [s|s| |s m e];
    try reflexivity; try (by destruct s).
  unfold SFeqb. rewrite SFcompare_finite_refl. by destruct s.
Qed.

Lemma double_dZ_total (Zs : list float) :
  Float64.dZ Zs = Ok (map (Float64.dZ_entry Zs) (seq 0 (length Zs))).
Proof.
  unfold Float64.dZ.
  change (Some 2%Z) with (Some (Z.of_nat 2)).
  change (Some 0%Z) with (Some (Z.of_nat 0)).
  change (Some (-1)%Z) with (Some (- Z.of_nat 1)%Z).
  change (Some (-3)%Z) with (Some (- Z.of_nat 3)%Z).
  rewrite !py_slice_pos_neg by lia.
  destruct Zs as [|z0 [|z1 [|z2 rest]]]; [reflexivity..|].
  set (Zs := z0 :: z1 :: z2 :: rest).
  assert (Hn : length Zs = S (S (S (length rest)))) by reflexivity.
  set (m := length rest) in *.
  replace (length Zs - 1 - Nat.min 2 (length Zs))%nat with m by lia.
  replace (length Zs - 3 - Nat.min 0 (length Zs))%nat with m by lia.
  replace (Nat.min 2 (length Zs)) with 2%nat by lia.
  replace (Nat.min 0 (length Zs)) with 0%nat by lia.
  rewrite drop_0.
  rewrite np_binop_same_length
    by (rewrite !length_take, length_drop; lia).
  unfold mbind, result_bind.
  rewrite np_setslice_same_length; cycle 1.
  { rewrite length_replicate, length_zip_with.
    rewrite !length_take, length_drop. unfold slice_start, slice_stop.
    change 1%Z with (Z.of_nat 1). change (-2)%Z with (- Z.of_nat 2)%Z.
    rewrite clip_nonneg, clip_neg by lia. lia. }
  f_equal. rewrite length_replicate.
  unfold slice_start, slice_stop.
  change 1%Z with (Z.of_nat 1). change (-2)%Z with (- Z.of_nat 2)%Z.
  rewrite clip_nonneg, clip_neg by lia.
  replace (Nat.min 1 (length Zs)) with 1%nat by lia.
  replace (length Zs - 2 - 1)%nat with m by lia.
  apply list_eq. intros i.
  rewrite list_lookup_fmap.
  destruct (decide (i < length Zs)%nat) as [Hi|Hi]; cycle 1.
  { rewrite (lookup_ge_None_2 (seq _ _)) by (rewrite length_seq; lia).
    apply lookup_ge_None_2.
    rewrite !length_app, length_take, length_zip_with, !length_take,
      !length_drop, length_replicate. lia. }
  rewrite lookup_seq_lt by done.
  change (Float64.dZ_entry Zs <$> Some (0 + i)%nat)
    with (Some (Float64.dZ_entry Zs i)).
  unfold Float64.dZ_entry. case_decide as Hint.
  - (* interior: the centred difference *)
    destruct (lookup_lt_is_Some_2 Zs (i + 1)) as [u Hu]; [lia|].
    destruct (lookup_lt_is_Some_2 Zs (i - 1)) as [w Hw]; [lia|].
    rewrite (list_lookup_total_correct _ _ _ Hu),
      (list_lookup_total_correct _ _ _ Hw).
    rewrite lookup_app_r by (rewrite length_take, length_replicate; lia).
    rewrite length_take, length_replicate.
    replace (i - Nat.min 1 (length Zs))%nat with (i - 1)%nat by lia.
    rewrite lookup_app_l
      by (rewrite length_zip_with, !length_take, length_drop; lia).
    rewrite lookup_zip_with, !lookup_take_lt, lookup_drop by lia.
    replace (2 + (i - 1))%nat with (i + 1)%nat by lia.
    by rewrite Hu, Hw.
  - (* boundary: the zero the array was created with *)
    destruct (decide (i = 0)%nat) as [->|Hne].
    + rewrite lookup_app_l by (rewrite length_take, length_replicate; lia).
      rewrite lookup_take_lt by lia. apply lookup_replicate_2. lia.
    + rewrite lookup_app_r by (rewrite length_take, length_replicate; lia).
      rewrite length_take, length_replicate.
      rewrite lookup_app_r
        by (rewrite length_zip_with, !length_take, length_drop; lia).
      rewrite length_zip_with, !length_take, length_drop.
      rewrite lookup_drop. apply lookup_replicate_2. lia.
Qed.

Lemma double_dZ_lookup (Zs : list float) (i : nat) :
  (i < length Zs)%nat ->
  map (Float64.dZ_entry Zs) (seq 0 (length Zs)) !! i =
  Some (Float64.dZ_entry Zs i).
Proof.
  intros Hi.
  change (map (Float64.dZ_entry Zs)) with (fmap (M:=list) (Float64.dZ_entry Zs)).
  by rewrite list_lookup_fmap, lookup_seq_lt.
Qed.

Lemma double_icross_total (Zs : list float) :
  Float64.icross Zs = Ok (Float64.crossings Zs).
Proof.
  unfold Float64.icross, Float64.crossings. rewrite double_dZ_total.
  unfold mbind at 1, result_bind at 1.
  set (d := map (Float64.dZ_entry Zs) (seq 0 (length Zs))).
  assert (Hd : length d = length Zs)
    by (unfold d; by rewrite length_map, length_seq).
  change (Some 1%Z) with (Some (Z.of_nat 1)).
  change (Some (-1)%Z) with (Some (- Z.of_nat 1)%Z).
  change (Some (-2)%Z) with (Some (- Z.of_nat 2)%Z).
  rewrite py_slice_pos_neg, py_slice_none_neg by lia. rewrite Hd.
  rewrite np_binop_same_length
    by (rewrite !length_take, length_drop, Hd; lia).
  unfold mbind, result_bind. f_equal.
  unfold np_nonzero. rewrite nonzero_from_filter.
  rewrite length_map, length_zip_with, !length_take, length_drop, Hd.
  replace (Nat.min (Nat.min (length Zs - 2) (length Zs))
             (Nat.min (length Zs - 1 - Nat.min 1 (length Zs))
                (length Zs - Nat.min 1 (length Zs))))
    with (length Zs - 2)%nat by lia.
  apply List.filter_ext_in. intros i Hi. apply in_seq in Hi.
  rewrite Nat.sub_0_r.
  change (map (fun v => PrimFloat.leb v 0%float))
    with (fmap (M:=list) (fun v => PrimFloat.leb v 0%float)).
  rewrite list_lookup_fmap, lookup_zip_with.
  rewrite !lookup_take_lt, lookup_drop by lia.
  replace (Nat.min 1 (length Zs) + i)%nat with (i + 1)%nat by lia.
  unfold d. rewrite !double_dZ_lookup by lia. simpl.
  unfold Float64.cross_at. destruct (PrimFloat.leb _ 0%float).
  - by apply bool_decide_eq_true_2.
  - by apply bool_decide_eq_false_2.
Qed.

Lemma double_crossings_in_range (Zs : list float) :
  Forall (fun i => (i < length Zs)%nat) (Float64.crossings Zs).
Proof.
  apply Forall_forall. intros i Hi. unfold Float64.crossings in Hi.
  apply list_elem_of_In, List.filter_In in Hi as [Hi _].
  apply in_seq in Hi. lia.
Qed.

Lemma double_Zextreme_total (Zs : list float) :
  Float64.Zextreme Zs = Ok (map (fun i => Zs !!! i) (Float64.crossings Zs)).
Proof.
  unfold Float64.Zextreme. rewrite double_icross_total.
  unfold mbind, result_bind.
  apply np_take_total, double_crossings_in_range.
Qed.

Lemma double_Zn_total np_mean (Zs : list float) :
  Float64.Zn np_mean Zs =
  Ok (List.filter (fun v => PrimFloat.ltb (Float64.meanZ np_mean Zs) v)
        (map (fun i => Zs !!! i) (Float64.crossings Zs))).
Proof.
  unfold Float64.Zn. rewrite double_Zextreme_total. unfold mbind, result_bind.
  apply np_getmask_map.
Qed.

(** The test at index 0: [dZ[0]] is the zero the array was created with and
    [dZ[1]] is [Z[2] - Z[0]]. *)
Lemma double_cross_at_first (Zs : list float) (z0 z2 : float) :
  (4 <= length Zs)%nat -> Zs !! 0%nat = Some z0 -> Zs !! 2%nat = Some z2 ->
  Float64.cross_at Zs 0 = PrimFloat.is_finite (PrimFloat.sub z2 z0).
Proof.
  intros Hn Hz0 Hz2. unfold Float64.cross_at, Float64.dZ_entry.
  destruct (decide (1 <= 0 /\ 0 + 3 <= length Zs)%nat) as [Hi|_]; [lia|].
  destruct (decide (1 <= 0 + 1 /\ 0 + 1 + 3 <= length Zs)%nat) as [_|Hi];
    [|simpl in Hi; lia].
  change (0 + 1 + 1)%nat with 2%nat. change (0 + 1 - 1)%nat with 0%nat.
  rewrite (list_lookup_total_correct _ _ _ Hz0),
    (list_lookup_total_correct _ _ _ Hz2).
  apply zero_mul_leb_zero.
Qed.

(** The test at the last tested index: [dZ[len(Z)-3]] is
    [Z[len(Z)-2] - Z[len(Z)-4]] and [dZ[len(Z)-2]] is the zero the array was
    created with. *)
Lemma double_cross_at_last (Zs : list float) (a c : float) :
  (4 <= length Zs)%nat ->
  Zs !! (length Zs - 4)%nat = Some a -> Zs !! (length Zs - 2)%nat = Some c ->
  Float64.cross_at Zs (length Zs - 3) =
  PrimFloat.is_finite (PrimFloat.sub c a).
Proof.
  intros Hn Ha Hc. unfold Float64.cross_at, Float64.dZ_entry.
  destruct (decide (1 <= length Zs - 3 /\ length Zs - 3 + 3 <= length Zs)%nat)
    as [_|Hi]; [|lia].
  destruct (decide (1 <= length Zs - 3 + 1 /\
                    length Zs - 3 + 1 + 3 <= length Zs)%nat) as [Hi|_]; [lia|].
  replace (length Zs - 3 + 1)%nat with (length Zs - 2)%nat by lia.
  replace (length Zs - 3 - 1)%nat with (length Zs - 4)%nat by lia.
  rewrite (list_lookup_total_correct _ _ _ Ha),
    (list_lookup_total_correct _ _ _ Hc).
  apply mul_zero_leb_zero.
Qed.

(** C8 (as amended). On every series of at least 4 samples, [dZ[0]] is the
    zero the array was created with and [dZ[1]] is [Z[2] - Z[0]]; the test
    [dZ[0]*dZ[1] <= 0] holds exactly when that difference is finite.  Then
    index 0 is the first element of [icross], [Z[0]] is the first element of
    [Zextreme], and [Z[0]] is in [Zn] whenever it exceeds the mean.  When
    the difference overflows to an infinity, or is nan, the product is nan,
    the test fails and index 0 is not selected. *)
Theorem first_sample_extreme_unless_overflow np_mean (Zs : list float)
  (z0 z2 : float) :
  (4 <= length Zs)%nat -> Zs !! 0%nat = Some z0 -> Zs !! 2%nat = Some z2 ->
  exists d ic ze zn,
    Float64.dZ Zs = Ok d /\ Float64.icross Zs = Ok ic /\
    Float64.Zextreme Zs = Ok ze /\ Float64.Zn np_mean Zs = Ok zn /\
    d !! 0%nat = Some 0%float /\ d !! 1%nat = Some (PrimFloat.sub z2 z0) /\
    PrimFloat.leb (PrimFloat.mul 0%float (PrimFloat.sub z2 z0)) 0%float =
      PrimFloat.is_finite (PrimFloat.sub z2 z0) /\
    if PrimFloat.is_finite (PrimFloat.sub z2 z0)
    then exists ic' ze',
           ic = 0%nat :: ic' /\ ze = z0 :: ze' /\
           (PrimFloat.ltb (Float64.meanZ np_mean Zs) z0 = true -> z0 ∈ zn)
    else 0%nat ∉ ic.
Proof.
  intros Hn Hz0 Hz2.
  pose proof (double_cross_at_first Zs z0 z2 Hn Hz0 Hz2) as Hcross.
  exists (map (Float64.dZ_entry Zs) (seq 0 (length Zs))), (Float64.crossings Zs),
    (map (fun i => Zs !!! i) (Float64.crossings Zs)),
    (List.filter (fun v => PrimFloat.ltb (Float64.meanZ np_mean Zs) v)
       (map (fun i => Zs !!! i) (Float64.crossings Zs))).
  split; [apply double_dZ_total|].
  split; [apply double_icross_total|].
  split; [apply double_Zextreme_total|].
  split; [apply double_Zn_total|].
  split.
  { rewrite double_dZ_lookup by lia. unfold Float64.dZ_entry.
    case_decide; [lia | reflexivity]. }
  split.
  { rewrite double_dZ_lookup by lia. unfold Float64.dZ_entry.
    destruct (decide (1 <= 1 /\ 1 + 3 <= length Zs)%nat) as [_|Hi]; [|lia].
    change (1 + 1)%nat with 2%nat. change (1 - 1)%nat with 0%nat.
    by rewrite (list_lookup_total_correct _ _ _ Hz0),
      (list_lookup_total_correct _ _ _ Hz2). }
  split; [apply zero_mul_leb_zero|].
  unfold Float64.crossings.
  destruct (length Zs - 2)%nat as [|k] eqn:Hk; [lia|].
  cbn [seq List.filter]. rewrite Hcross.
  destruct (PrimFloat.is_finite (PrimFloat.sub z2 z0)).
  - do 2 eexists. split; [reflexivity|].
    split; [simpl; by rewrite (list_lookup_total_correct _ _ _ Hz0)|].
    intros Hgt. apply list_elem_of_In, List.filter_In. split; [|exact Hgt].
    left. by apply list_lookup_total_correct.
  - intros Hin. apply list_elem_of_In, List.filter_In in Hin as [Hin _].
    apply in_seq in Hin. lia.
Qed.

Lemma first_sample_extreme_unless_overflow_witness :
  exists d ic ze zn,
    Float64.dZ [5; 6; 0; 0; 0]%float = Ok d /\
    Float64.icross [5; 6; 0; 0; 0]%float = Ok ic /\
    Float64.Zextreme [5; 6; 0; 0; 0]%float = Ok ze /\
    Float64.Zn Float64.mean_left_to_right [5; 6; 0; 0; 0]%float = Ok zn /\
    d !! 0%nat = Some 0%float /\ d !! 1%nat = Some (PrimFloat.sub 0 5) /\
    PrimFloat.leb (PrimFloat.mul 0%float (PrimFloat.sub 0 5)) 0%float =
      PrimFloat.is_finite (PrimFloat.sub 0 5) /\
    if PrimFloat.is_finite (PrimFloat.sub 0 5)
    then exists ic' ze',
           ic = 0%nat :: ic' /\ ze = 5%float :: ze' /\
           (PrimFloat.ltb
              (Float64.meanZ Float64.mean_left_to_right [5; 6; 0; 0; 0]%float)
              5 = true -> 5%float ∈ zn)
    else 0%nat ∉ ic.
Proof.
  apply (first_sample_extreme_unless_overflow Float64.mean_left_to_right
           [5; 6; 0; 0; 0]%float 5%float 0%float);
    [simpl; lia | reflexivity | reflexivity].
Defined.

(** C8, the claim as stated fails: on the series [-2^1023, 0, 2^1023, 0]
    (about 9e307 in size) the difference [Z[2] - Z[0]] overflows to an
    infinity, [dZ[0]*dZ[1] = 0*inf] is nan, the test fails, and index 0 is
    not selected: [icross] is empty. *)
Lemma first_sample_lost_on_overflow :
  ~ Float64.first_sample_selected
      [(-0x1p+1023)%float; 0%float; 0x1p+1023%float; 0%float].
Proof.
  intros Hsel. destruct Hsel as [ic Hic]; [simpl; lia|]. discriminate.
Qed.

Example double_dZ_overflow :
  Float64.dZ [(-0x1p+1023)%float; 0%float; 0x1p+1023%float; 0%float] =
    Ok [0%float; infinity; 0%float; 0%float] /\
  Float64.icross [(-0x1p+1023)%float; 0%float; 0x1p+1023%float; 0%float] =
    Ok [].
Proof. split; reflexivity. Qed.

Example double_icross_ramp :
  Float64.icross [0; 1; 2; 3]%float = Ok [0; 1]%nat.
Proof. reflexivity. Qed.

(** ** Running statements in a world *)

Lemma bind_run {A B} (m : M A) (k : A -> M B) (w : world) :
  (m ≫= k) w =
  match m w with
  | (Ok a, w') => k a w'
  | (Raise e, w') => (Raise e, w')
  end.
Proof. reflexivity. Qed.

Lemma getitem_obj_run (l : loc) (i : Z) (w : world) (a : list Q) :
  heap w !! l = Some a -> getitem_obj l i w = (getitem a i, w).
Proof.
  intros Hl. unfold getitem_obj, load. rewrite bind_run, Hl. simpl.
  unfold lift. by destruct (getitem a i).
Qed.

Lemma getitem_obj_unbound (l : loc) (i : Z) (w : world) :
  heap w !! l = None -> getitem_obj l i w = (Raise Unbound, w).
Proof.
  intros Hl. unfold getitem_obj, load. by rewrite bind_run, Hl.
Qed.

(** [Lorenz_obj] computes what [Lorenz] computes on the object that the
    reference names, and stores the result as a new object. *)
Lemma Lorenz_obj_refines (state : loc) (t sigma r b : Q) (w : world)
  (a : list Q) :
  heap w !! state = Some a ->
  Lorenz_obj state t sigma r b w =
  match Lorenz a t sigma r b with
  | Ok d => (Ok (fresh (dom (heap w))),
             World (<[fresh (dom (heap w)) := d]> (heap w)) (figures w))
  | Raise e => (Raise e, w)
  end.
Proof.
  intros Hst. unfold Lorenz_obj, Lorenz.
  rewrite bind_run, (getitem_obj_run _ _ _ _ Hst).
  destruct (getitem a 0) as [x|e]; [|reflexivity].
  rewrite bind_run, (getitem_obj_run _ _ _ _ Hst).
  destruct (getitem a 1) as [y|e]; [|reflexivity].
  rewrite bind_run, (getitem_obj_run _ _ _ _ Hst).
  destruct (getitem a 2) as [z|e]; reflexivity.
Qed.

Lemma Lorenz_obj_unbound (state : loc) (t sigma r b : Q) (w : world) :
  heap w !! state = None ->
  Lorenz_obj state t sigma r b w = (Raise Unbound, w).
Proof.
  intros Hst. unfold Lorenz_obj.
  by rewrite bind_run, (getitem_obj_unbound _ _ _ Hst).
Qed.

(** A run of [Lorenz_obj] either raises and leaves the world as it was, or
    adds one object, at a reference that named nothing before. *)
Lemma Lorenz_obj_run (state : loc) (t sigma r b : Q) (w : world) :
  (exists e, Lorenz_obj state t sigma r b w = (Raise e, w)) \/
  (exists a d,
     heap w !! state = Some a /\
     heap w !! fresh (dom (heap w)) = None /\
     Lorenz_obj state t sigma r b w =
       (Ok (fresh (dom (heap w))),
        World (<[fresh (dom (heap w)) := d]> (heap w)) (figures w))).
Proof.
  destruct (heap w !! state) as [a|] eqn:Hst.
  - rewrite (Lorenz_obj_refines _ _ _ _ _ _ _ Hst).
    destruct (Lorenz a t sigma r b) as [d|e]; [right | left; eauto].
    exists a, d. split; [reflexivity|]. split; [|reflexivity].
    apply not_elem_of_dom, is_fresh.
  - left. exists Unbound. by apply Lorenz_obj_unbound.
Qed.

(** The store can be written: an item assignment changes the object. *)
Example setitem_obj_writes :
  heap (setitem_obj 1%positive 0 7 (World {[1%positive := [2; 3; 4]]} [])).2
    !! 1%positive = Some [7; 3; 4].
Proof. reflexivity. Qed.

(** ** The masks of [bifurcation_plot] *)

Lemma np_sign_negative (q : Q) : Qlt_bool (np_sign q) 0 = Qlt_bool q 0.
Proof. unfold np_sign, Qlt_bool. by destruct (q ?= 0) eqn:Hq. Qed.

Lemma np_sign_positive (q : Q) : Qlt_bool 0 (np_sign q) = Qlt_bool 0 q.
Proof.
  unfold np_sign, Qlt_bool. rewrite <- (Qcompare_antisym q 0).
  by destruct (q ?= 0) eqn:Hq.
Qed.

Lemma stable_mask_path (f_x : Q -> Q -> Q) (path : list (Q * Q)) :
  stable_mask f_x (map fst path) (map snd path) = map (is_stable f_x) path.
Proof.
  unfold stable_mask, is_stable.
  induction path as [|[vr vx] path IH]; simpl; [reflexivity|].
  by rewrite IH, np_sign_negative.
Qed.

Lemma unstable_mask_path (f_x : Q -> Q -> Q) (path : list (Q * Q)) :
  unstable_mask f_x (map fst path) (map snd path) = map (is_unstable f_x) path.
Proof.
  unfold unstable_mask, is_unstable.
  induction path as [|[vr vx] path IH]; simpl; [reflexivity|].
  by rewrite IH, np_sign_positive.
Qed.

Lemma np_getmask_path (g : Q * Q -> Q) (keep : Q * Q -> bool)
  (path : list (Q * Q)) :
  np_getmask (map g path) (map keep path) = Ok (map g (List.filter keep path)).
Proof.
  induction path as [|v path IH]; simpl; [reflexivity|].
  rewrite IH. simpl. by destruct (keep v).
Qed.

Lemma line_vertices_branch (keep : Q * Q -> bool) (fmt : string)
  (path : list (Q * Q)) :
  line_vertices (branch_line keep fmt path) = List.filter keep path.
Proof.
  unfold line_vertices, branch_line. simpl.
  induction (List.filter keep path) as [|[a b] l IH]; simpl; [reflexivity|].
  by rewrite IH.
Qed.

(** ** Running [bifurcation_plot] *)

Lemma plot_branches_run (f_x : Q -> Q -> Q) (path : list (Q * Q))
  (h : gmap loc (list Q)) (fig : figure) (rest : list figure) :
  fig_hold fig = true ->
  plot_branches f_x path (World h (fig :: rest)) =
  (Ok tt, World h (with_branches f_x [path] fig :: rest)).
Proof.
  intros Hhold. unfold plot_branches.
  rewrite stable_mask_path, unstable_mask_path, !np_getmask_path.
  destruct fig as [cs ls hold xl yl lg xlim ylim]; simpl in Hhold; subst.
  unfold with_branches, mbind, M_bind, lift, plt_plot, plt_hold, on_gcf.
  simpl. by rewrite <- app_assoc.
Qed.

Lemma with_branches_nil (f_x : Q -> Q -> Q) (fig : figure) :
  fig_hold fig = true -> with_branches f_x [] fig = fig.
Proof.
  intros Hhold. destruct fig; simpl in *; subst.
  unfold with_branches; simpl. by rewrite app_nil_r.
Qed.

Lemma with_branches_cons (f_x : Q -> Q -> Q) (path : list (Q * Q))
  (paths : list (list (Q * Q))) (fig : figure) :
  with_branches f_x paths (with_branches f_x [path] fig) =
  with_branches f_x (path :: paths) fig.
Proof.
  unfold with_branches; simpl. by rewrite <- !app_assoc.
Qed.

Lemma for_each_plot_branches_run (f_x : Q -> Q -> Q)
  (paths : list (list (Q * Q))) (h : gmap loc (list Q)) (fig : figure)
  (rest : list figure) :
  fig_hold fig = true ->
  for_each paths (plot_branches f_x) (World h (fig :: rest)) =
  (Ok tt, World h (with_branches f_x paths fig :: rest)).
Proof.
  revert fig. induction paths as [|path paths IH]; intros fig Hhold.
  - simpl. by rewrite with_branches_nil.
  - cbn [for_each]. rewrite bind_run, plot_branches_run by done.
    rewrite IH by reflexivity. by rewrite with_branches_cons.
Qed.

(** One pyplot command on the current figure, in the hypothesis that
    describes the run. *)
Ltac step_gcf op H :=
  rewrite bind_run in H; unfold op at 1, on_gcf at 1 in H;
  cbn [figures heap fig_contours fig_lines fig_hold fig_xlabel fig_ylabel
       fig_legend fig_xlim fig_ylim] in H.

Lemma grid_map2_meshgrid (f : Q -> Q -> Q) (rs xs : list Q) :
  grid_map2 f (replicate (length xs) rs)
            (map (fun xj => replicate (length rs) xj) xs) =
  map (fun xj => zip_with f rs (replicate (length rs) xj)) xs.
Proof.
  unfold grid_map2. induction xs as [|x0 xs IH]; simpl; [reflexivity|].
  by rewrite IH.
Qed.

Lemma forallb_const {A} (p : A -> bool) (c : bool) (l : list A) :
  (forall v, In v l -> p v = c) -> l <> [] -> forallb p l = c.
Proof.
  induction l as [|v l IH]; intros Hall Hne; [done|]. simpl.
  rewrite (Hall v) by (by left).
  destruct l as [|v' l]; [by rewrite andb_true_r|].
  rewrite IH; [by destruct c | intros u Hu; apply Hall; by right | done].
Qed.

(** The grid of [f] on the mesh of [rs] and [xs] can be contoured exactly
    when both arrays have two elements or more. *)
Lemma at_least_2x2_meshgrid (f : Q -> Q -> Q) (rs xs : list Q) :
  at_least_2x2 (grid_map2 f (replicate (length xs) rs)
                  (map (fun xj => replicate (length rs) xj) xs)) =
  ((2 <=? length rs)%nat && (2 <=? length xs)%nat)%bool.
Proof.
  rewrite grid_map2_meshgrid. unfold at_least_2x2. rewrite length_map.
  destruct xs as [|x0 xs]; [by rewrite andb_false_r|].
  rewrite (forallb_const _ (2 <=? length rs)%nat); [apply andb_comm| |done].
  intros row Hrow. apply in_map_iff in Hrow as [xj [<- _]].
  rewrite length_zip_with, length_replicate. by rewrite Nat.min_id.
Qed.

Lemma legend_entries_lines {L} (l1 l2 : list (Q * Q) -> L)
  (paths : list (list (Q * Q))) :
  take (length (flat_map (fun path => [l1 path; l2 path]) paths))
       ["stable"; "unstable"] = legend_entries paths.
Proof. destruct paths as [|path paths]; simpl; [done | by rewrite take_nil]. Qed.

(** A run of [bifurcation_plot] on the arrays [rs] and [xs]: with two or
    more elements in each it returns and leaves the figure [diagram]; with
    fewer in one of them the contour call raises TypeError and the figure
    that [plt.figure()] opened stays empty. *)
Lemma bifurcation_plot_full zero_contour (f f_x : Q -> Q -> Q) (r x : loc)
  (rlabel : string) (w : world) (rs xs : list Q) :
  heap w !! r = Some rs -> heap w !! x = Some xs ->
  bifurcation_plot zero_contour f f_x r x rlabel w =
  if ((2 <=? length rs)%nat && (2 <=? length xs)%nat)%bool
  then (Ok tt,
        World (heap w) (diagram zero_contour f f_x rs xs rlabel :: figures w))
  else (Raise TypeError, World (heap w) (new_figure :: figures w)).
Proof.
  intros Hr Hx. unfold diagram.
  remember (bifurcation_plot zero_contour f f_x r x rlabel w) as out eqn:Hout.
  unfold bifurcation_plot in Hout.
  rewrite bind_run in Hout. unfold load at 1 in Hout. rewrite Hr in Hout.
  cbv beta iota in Hout.
  rewrite bind_run in Hout. unfold load at 1 in Hout. rewrite Hx in Hout.
  cbv beta iota in Hout.
  unfold contour_paths. unfold np_meshgrid in *. cbv beta iota zeta in Hout.
  rewrite bind_run in Hout. unfold plt_figure at 1 in Hout.
  rewrite bind_run in Hout. unfold plt_contour_zero at 1 in Hout.
  rewrite at_least_2x2_meshgrid in *.
  destruct ((2 <=? length rs)%nat && (2 <=? length xs)%nat)%bool eqn:Hgrid;
    [|by subst out].
  apply andb_true_iff in Hgrid as [Hrs Hxs].
  apply Nat.leb_le in Hrs, Hxs.
  set (paths := zero_contour _ _ _) in *.
  cbv zeta in Hout.
  step_gcf plt_contour Hout.
  unfold mret at 1, M_ret at 1 in Hout. cbv beta iota in Hout.
  step_gcf plt_clf Hout.
  rewrite bind_run, for_each_plot_branches_run in Hout by reflexivity.
  unfold with_branches, new_figure in Hout.
  step_gcf plt_xlabel Hout.
  step_gcf plt_ylabel Hout.
  step_gcf plt_legend Hout.
  rewrite app_nil_l, legend_entries_lines in Hout.
  set (w1 := World (heap w) _) in Hout.
  assert (Hr1 : heap w1 !! r = Some rs) by exact Hr.
  rewrite bind_run, (getitem_obj_run _ _ _ _ Hr1) in Hout.
  destruct rs as [|r0 rs']; [simpl in Hrs; lia|].
  change (getitem (r0 :: rs') 0) with (Ok (A:=Q) r0) in Hout.
  cbv beta iota in Hout.
  rewrite bind_run, (getitem_obj_run _ _ _ _ Hr1), getitem_last_value in Hout.
  cbv beta iota in Hout.
  subst w1. step_gcf plt_xlim Hout.
  set (w2 := World (heap w) _) in Hout.
  assert (Hx2 : heap w2 !! x = Some xs) by exact Hx.
  rewrite bind_run, (getitem_obj_run _ _ _ _ Hx2) in Hout.
  destruct xs as [|x0 xs']; [simpl in Hxs; lia|].
  change (getitem (x0 :: xs') 0) with (Ok (A:=Q) x0) in Hout.
  cbv beta iota in Hout.
  rewrite bind_run, (getitem_obj_run _ _ _ _ Hx2), getitem_last_value in Hout.
  cbv beta iota in Hout.
  by subst out.
Qed.

Lemma contour_paths_small_grid zero_contour (f : Q -> Q -> Q)
  (rs xs : list Q) :
  ((2 <=? length rs)%nat && (2 <=? length xs)%nat)%bool = false ->
  contour_paths zero_contour f rs xs = [].
Proof.
  intros Hgrid. unfold contour_paths, np_meshgrid.
  by rewrite at_least_2x2_meshgrid, Hgrid.
Qed.

Lemma bifurcation_plot_run zero_contour (f f_x : Q -> Q -> Q) (r x : loc)
  (rlabel : string) (w : world) (rs xs : list Q) :
  heap w !! r = Some rs -> heap w !! x = Some xs ->
  exists fig,
    (bifurcation_plot zero_contour f f_x r x rlabel w).2 =
      World (heap w) (fig :: figures w) /\
    fig_lines fig =
      fig_lines (with_branches f_x (contour_paths zero_contour f rs xs)
                   new_figure).
Proof.
  intros Hr Hx. rewrite (bifurcation_plot_full _ _ _ _ _ _ _ _ _ Hr Hx).
  destruct ((2 <=? length rs)%nat && (2 <=? length xs)%nat)%bool eqn:Hgrid.
  - eexists. split; reflexivity.
  - eexists. split; [reflexivity|].
    by rewrite contour_paths_small_grid.
Qed.

Lemma bifurcation_plot_unbound zero_contour (f f_x : Q -> Q -> Q) (r x : loc)
  (rlabel : string) (w : world) :
  heap w !! r = None \/ heap w !! x = None ->
  bifurcation_plot zero_contour f f_x r x rlabel w = (Raise Unbound, w).
Proof.
  intros Hnone. unfold bifurcation_plot.
  rewrite bind_run. unfold load at 1.
  destruct (heap w !! r) as [rs|]; [|reflexivity].
  destruct Hnone as [Hr|Hx]; [discriminate|].
  cbv beta iota. rewrite bind_run. unfold load at 1. by rewrite Hx.
Qed.

(** C3. For the arrays [r] and [x] in the store, the figure that
    [bifurcation_plot] adds holds, for each path of the zero contour, one
    solid line through exactly the vertices with [f_x < 0] and one dashed line
    through exactly the vertices with [f_x > 0]: a vertex of a path is on the
    stable branch iff [f_x(vr, vx) < 0] and on the unstable branch iff
    [f_x(vr, vx) > 0]. *)
Theorem stability_annotation zero_contour (f f_x : Q -> Q -> Q) (r x : loc)
  (rlabel : string) (w : world) (rs xs : list Q) :
  heap w !! r = Some rs -> heap w !! x = Some xs ->
  exists fig,
    figures (bifurcation_plot zero_contour f f_x r x rlabel w).2 =
      fig :: figures w /\
    fig_lines fig =
      flat_map (fun path => [branch_line (is_stable f_x) "b" path;
                             branch_line (is_unstable f_x) "b--" path])
               (contour_paths zero_contour f rs xs) /\
    forall path vr vx,
      path ∈ contour_paths zero_contour f rs xs -> (vr, vx) ∈ path ->
      ((vr, vx) ∈ line_vertices (branch_line (is_stable f_x) "b" path)
       <-> f_x vr vx < 0) /\
      ((vr, vx) ∈ line_vertices (branch_line (is_unstable f_x) "b--" path)
       <-> 0 < f_x vr vx).
Proof.
  intros Hr Hx.
  destruct (bifurcation_plot_run zero_contour f f_x r x rlabel w rs xs Hr Hx)
    as [fig [Hw Hlines]].
  exists fig. split; [by rewrite Hw|]. split; [exact Hlines|].
  intros path vr vx _ Hv.
  rewrite !line_vertices_branch, !list_elem_of_In, !List.filter_In.
  unfold is_stable, is_unstable. simpl. rewrite !Qlt_bool_iff.
  apply list_elem_of_In in Hv. tauto.
Qed.

Lemma stability_annotation_witness :
  exists fig,
    figures (bifurcation_plot parabola_contour saddle_node_f saddle_node_f_x
               1%positive 2%positive "r" grid_world).2 =
      fig :: figures grid_world /\
    fig_lines fig =
      flat_map (fun path =>
                  [branch_line (is_stable saddle_node_f_x) "b" path;
                   branch_line (is_unstable saddle_node_f_x) "b--" path])
               (contour_paths parabola_contour saddle_node_f
                  [-4; 0; 4] [-4; 0; 4]) /\
    forall path vr vx,
      path ∈ contour_paths parabola_contour saddle_node_f
               [-4; 0; 4] [-4; 0; 4] ->
      (vr, vx) ∈ path ->
      ((vr, vx) ∈ line_vertices
                    (branch_line (is_stable saddle_node_f_x) "b" path)
       <-> saddle_node_f_x vr vx < 0) /\
      ((vr, vx) ∈ line_vertices
                    (branch_line (is_unstable saddle_node_f_x) "b--" path)
       <-> 0 < saddle_node_f_x vr vx).
Proof.
  apply (stability_annotation parabola_contour saddle_node_f saddle_node_f_x
           1%positive 2%positive "r" grid_world [-4; 0; 4] [-4; 0; 4]);
    reflexivity.
Defined.

Example saddle_node_lines :
  fig_lines (with_branches saddle_node_f_x
               (contour_paths parabola_contour saddle_node_f
                  [-4; 0; 4] [-4; 0; 4]) new_figure) =
  [Line [-1; -4] [-1; -2] "b"; Line [-4; -1] [2; 1] "b--"].
Proof. reflexivity. Qed.

(** C9. A contour vertex at which [f_x] is exactly 0 passes neither mask and
    is on no line of the figure that [bifurcation_plot] adds. *)
Theorem zero_slope_vertex_dropped zero_contour (f f_x : Q -> Q -> Q)
  (r x : loc) (rlabel : string) (w : world) (rs xs : list Q) (vr vx : Q) :
  heap w !! r = Some rs -> heap w !! x = Some xs ->
  f_x vr vx == 0 ->
  is_stable f_x (vr, vx) = false /\
  is_unstable f_x (vr, vx) = false /\
  exists fig,
    figures (bifurcation_plot zero_contour f f_x r x rlabel w).2 =
      fig :: figures w /\
    forall l, l ∈ fig_lines fig -> (vr, vx) ∉ line_vertices l.
Proof.
  intros Hr Hx Hzero.
  assert (Hs : is_stable f_x (vr, vx) = false).
  { apply not_true_is_false. unfold is_stable. simpl.
    rewrite Qlt_bool_iff, Hzero. apply Qlt_irrefl. }
  assert (Hu : is_unstable f_x (vr, vx) = false).
  { apply not_true_is_false. unfold is_unstable. simpl.
    rewrite Qlt_bool_iff, Hzero. apply Qlt_irrefl. }
  split; [exact Hs|]. split; [exact Hu|].
  destruct (bifurcation_plot_run zero_contour f f_x r x rlabel w rs xs Hr Hx)
    as [fig [Hw Hlines]].
  exists fig. split; [by rewrite Hw|].
  intros l Hl Hv. rewrite Hlines in Hl. simpl in Hl.
  apply list_elem_of_In, in_flat_map in Hl as [path [_ Hl]].
  destruct Hl as [<- | [<- | []]];
    rewrite line_vertices_branch in Hv;
    apply list_elem_of_In, List.filter_In in Hv as [_ Hkeep]; congruence.
Qed.

Lemma zero_slope_vertex_dropped_witness :
  is_stable saddle_node_f_x (0, 0) = false /\
  is_unstable saddle_node_f_x (0, 0) = false /\
  exists fig,
    figures (bifurcation_plot parabola_contour saddle_node_f saddle_node_f_x
               1%positive 2%positive "r" grid_world).2 =
      fig :: figures grid_world /\
    forall l, l ∈ fig_lines fig -> (0, 0) ∉ line_vertices l.
Proof.
  apply (zero_slope_vertex_dropped parabola_contour saddle_node_f
           saddle_node_f_x 1%positive 2%positive "r" grid_world
           [-4; 0; 4] [-4; 0; 4] 0 0); reflexivity.
Defined.

(** C5 (as amended). Neither function checks its input or raises an error of
    its own.  [Lorenz] returns the derivative on every state of at least
    three components and raises the IndexError of the failing subscript on a
    shorter one.  [bifurcation_plot] returns on arrays [r] and [x] of two or
    more elements each; on an empty or one-element [r] or [x] the only
    failure is the TypeError that [plt.contour] raises on a grid smaller
    than 2 by 2, before [r[0]] or [x[0]] is read; nothing else is raised. *)
Theorem no_validation_raw_library_errors :
  (forall state t sigma r b,
     Lorenz state t sigma r b =
     match state with
     | x :: y :: z :: _ =>
         Ok [sigma * (y - x); (r - z) * x - y; x * y - b * z]
     | _ => Raise IndexError
     end) /\
  (forall zero_contour f f_x r x rlabel w,
     (bifurcation_plot zero_contour f f_x r x rlabel w).1 =
     match heap w !! r, heap w !! x with
     | Some rs, Some xs =>
         if ((2 <=? length rs)%nat && (2 <=? length xs)%nat)%bool
         then Ok tt
         else Raise TypeError
     | _, _ => Raise Unbound
     end).
Proof.
  split; [apply Lorenz_cases|].
  intros zero_contour f f_x r x rlabel w.
  destruct (heap w !! r) as [rs|] eqn:Hr; cycle 1.
  { rewrite bifurcation_plot_unbound by auto. reflexivity. }
  destruct (heap w !! x) as [xs|] eqn:Hx; cycle 1.
  { rewrite bifurcation_plot_unbound by auto. reflexivity. }
  rewrite (bifurcation_plot_full _ _ _ _ _ _ _ _ _ Hr Hx).
  by destruct ((2 <=? length rs)%nat && (2 <=? length xs)%nat)%bool.
Qed.

(** C5, the claim as stated fails: with an empty [r] the call does not reach
    [r[0]]; the failure is the TypeError of the contour call, not an
    IndexError. *)
Lemma empty_array_fails_in_contour :
  ~ fails_only_by_index parabola_contour saddle_node_f saddle_node_f_x
      1%positive 2%positive "r"
      (World {[1%positive := []; 2%positive := [-4; 0; 4]]} []).
Proof.
  intros Hall.
  specialize (Hall [] [-4; 0; 4] eq_refl eq_refl). discriminate.
Qed.

Example one_point_array_fails_in_contour :
  bifurcation_plot parabola_contour saddle_node_f saddle_node_f_x
    1%positive 2%positive "r"
    (World {[1%positive := [3]; 2%positive := [-4; 0; 4]]} []) =
  (Raise TypeError,
   World {[1%positive := [3]; 2%positive := [-4; 0; 4]]} [new_figure]).
Proof. reflexivity. Qed.

(** C6. Neither function changes an object it is given.  [Lorenz] leaves
    every object of the store, the state among them, and every figure as it
    found them, and returns a reference to a new object; [bifurcation_plot]
    leaves the whole store, the arrays [r] and [x] among it, as it found it:
    it only changes the figures. *)
Theorem inputs_not_mutated :
  (forall state t sigma r b,
     keeps_figures (Lorenz_obj state t sigma r b) /\
     forall w,
       heap w ⊆ heap (Lorenz_obj state t sigma r b w).2 /\
       heap (Lorenz_obj state t sigma r b w).2 !! state = heap w !! state /\
       match (Lorenz_obj state t sigma r b w).1 with
       | Ok l => heap w !! l = None /\
                 is_Some (heap (Lorenz_obj state t sigma r b w).2 !! l)
       | Raise _ => (Lorenz_obj state t sigma r b w).2 = w
       end) /\
  (forall zero_contour f f_x r x rlabel,
     keeps_heap (bifurcation_plot zero_contour f f_x r x rlabel)).
Proof.
  split.
  - intros state t sigma r b. split; intros w;
      destruct (Lorenz_obj_run state t sigma r b w)
        as [[e ->] | [a [d [Hst [Hfresh ->]]]]]; simpl; try done.
    split; [by apply insert_subseteq|].
    split; [|split; [exact Hfresh | rewrite lookup_insert_eq; eauto]].
    apply lookup_insert_ne. intros Heq. rewrite Heq in Hfresh. congruence.
  - intros zero_contour f f_x r x rlabel w.
    destruct (heap w !! r) as [rs|] eqn:Hr; cycle 1.
    { by rewrite bifurcation_plot_unbound by auto. }
    destruct (heap w !! x) as [xs|] eqn:Hx; cycle 1.
    { by rewrite bifurcation_plot_unbound by auto. }
    destruct (bifurcation_plot_run zero_contour f f_x r x rlabel w rs xs
                Hr Hx) as [fig [Hw _]].
    by rewrite Hw.
Qed.

(** * Further properties of the code *)

(** ** Fixed points and symmetry of the Lorenz right-hand side *)

(** X1. The origin is a fixed point for every choice of the parameters;
    the two points [C+ = (x, x, r-1)] and [C- = (-x, -x, r-1)] are fixed
    points for every [x] with [x*x = b*(r-1)]: the derivative [Lorenz]
    returns there is zero in each component. *)
Theorem Lorenz_fixed_points (t sigma r b : Q) :
  (exists d, Lorenz [0; 0; 0] t sigma r b = Ok d /\ Forall2 Qeq d [0; 0; 0]) /\
  forall x, x * x == b * (r - 1) ->
    (exists d, Lorenz [x; x; r - 1] t sigma r b = Ok d /\
               Forall2 Qeq d [0; 0; 0]) /\
    (exists d, Lorenz [- x; - x; r - 1] t sigma r b = Ok d /\
               Forall2 Qeq d [0; 0; 0]).
Proof.
  rewrite Lorenz_cases. split.
  { eexists. split; [reflexivity|]. repeat constructor; ring. }
  intros x Hx. rewrite !Lorenz_cases.
  split; eexists; (split; [reflexivity|]); repeat constructor; try ring.
  - rewrite Hx. ring.
  - rewrite <- Hx. ring.
Qed.

Lemma Lorenz_fixed_points_witness :
  (exists d, Lorenz [0; 0; 0] 0 10 3 2 = Ok d /\ Forall2 Qeq d [0; 0; 0]) /\
  (exists d, Lorenz [2; 2; 3 - 1] 0 10 3 2 = Ok d /\
             Forall2 Qeq d [0; 0; 0]) /\
  (exists d, Lorenz [- (2); - (2); 3 - 1] 0 10 3 2 = Ok d /\
             Forall2 Qeq d [0; 0; 0]).
Proof.
  destruct (Lorenz_fixed_points 0 10 3 2) as [Horigin Hpair].
  split; [exact Horigin|]. apply (Hpair 2). reflexivity.
Defined.

Example Lorenz_origin_fixed_below_one :
  Lorenz [0; 0; 0] 0 10 (1 # 2) (8 # 3) =
  Ok [10 * (0 - 0); ((1 # 2) - 0) * 0 - 0; 0 * 0 - (8 # 3) * 0].
Proof. reflexivity. Qed.

(** X2. The right-hand side is symmetric under the reflection
    [(x, y, z) -> (-x, -y, z)]: on the reflected state it returns the
    reflected derivative [(-xd, -yd, zd)]. *)
Theorem Lorenz_reflection_symmetry (x y z t sigma r b : Q) :
  exists xd yd zd xd' yd' zd',
    Lorenz [x; y; z] t sigma r b = Ok [xd; yd; zd] /\
    Lorenz [- x; - y; z] t sigma r b = Ok [xd'; yd'; zd'] /\
    xd' == - xd /\ yd' == - yd /\ zd' == zd.
Proof.
  rewrite !Lorenz_cases. do 6 eexists.
  split; [reflexivity|]. split; [reflexivity|].
  repeat split; ring.
Qed.

(** X3. A state of more than three components is accepted: the components
    after the third are ignored, and the result always has three. *)
Theorem Lorenz_ignores_extra_components (x y z : Q) (rest : list Q)
  (t sigma r b : Q) :
  Lorenz (x :: y :: z :: rest) t sigma r b = Lorenz [x; y; z] t sigma r b /\
  exists d, Lorenz (x :: y :: z :: rest) t sigma r b = Ok d /\
            length d = 3%nat.
Proof.
  rewrite !Lorenz_cases. split; [reflexivity|]. eauto.
Qed.

(** ** The Jacobian at [C+] and the Hopf value [r_H] *)

(** X4. The matrix [J(r)] of the stability cell is the linearisation of
    [Lorenz] at [C+ = (x*, x*, r-1)]: for every displacement [(dx, dy, dz)]
    the derivative at the displaced point is [J(r)] applied to the
    displacement plus the quadratic terms [(0, -dx*dz, dx*dy)].  It is used
    for a root [x*], one with [x* * x* = b*(r-1)]. *)
Theorem J_linearises_Lorenz np_sqrt (t sigma r b dx dy dz : Q) :
  xstar np_sqrt b r * xstar np_sqrt b r == b * (r - 1) ->
  exists d,
    Lorenz [xstar np_sqrt b r + dx; xstar np_sqrt b r + dy; (r - 1) + dz]
           t sigma r b = Ok d /\
    Forall2 Qeq d
      (zip_with Qplus (np_dot (J np_sqrt sigma b r) [dx; dy; dz])
                      [0; - (dx * dz); dx * dy]).
Proof.
  intros Hx. rewrite Lorenz_cases. eexists. split; [reflexivity|].
  unfold J, np_dot, np_sum. simpl.
  set (xs := xstar np_sqrt b r) in *.
  repeat constructor; try ring.
  assert (E : (xs + dx) * (xs + dy) - b * (r - 1 + dz) ==
              xs * xs - b * (r - 1)
              + (xs * dx + xs * dy - b * dz + dx * dy)) by ring.
  rewrite E, Hx. ring.
Qed.

Lemma J_linearises_Lorenz_witness :
  exists d,
    Lorenz [xstar (fun _ => 9) 3 28 + 1; xstar (fun _ => 9) 3 28 + 2;
            (28 - 1) + 3] 0 8 28 3 = Ok d /\
    Forall2 Qeq d
      (zip_with Qplus (np_dot (J (fun _ => 9) 8 3 28) [1; 2; 3])
                      [0; - (1 * 3); 1 * 2]).
Proof.
  apply (J_linearises_Lorenz (fun _ => 9) 0 8 28 3 1 2 3). reflexivity.
Defined.

(** X5. [r_H] is the Hopf value.  At every [r], with [x*] the value of
    [xstar(r)], the characteristic polynomial of [J(r)] has trace
    [-(sigma+b+1)], second coefficient [sigma*b + b + x* * x*] and
    determinant [-2*sigma * x* * x*]; the condition for a pair of purely
    imaginary eigenvalues, that the product of the first two equals the
    third, fails by exactly [(sigma-b-1) * (x* * x* - b*(r_H-1))]: it holds
    precisely where [x* * x*] is [b*(r_H-1)], the square of [xstar(r_H)].
    The denominator [sigma-b-1] of [r_H] must not vanish. *)
Theorem r_H_is_Hopf_value np_sqrt (sigma b r : Q) :
  ~ sigma - b - 1 == 0 ->
  trace3 (J np_sqrt sigma b r) == - (sigma + b + 1) /\
  minors3 (J np_sqrt sigma b r)
    == sigma * b + b + xstar np_sqrt b r * xstar np_sqrt b r /\
  det3 (J np_sqrt sigma b r)
    == - (2 * sigma * (xstar np_sqrt b r * xstar np_sqrt b r)) /\
  trace3 (J np_sqrt sigma b r) * minors3 (J np_sqrt sigma b r)
    - det3 (J np_sqrt sigma b r)
    == (sigma - b - 1)
       * (xstar np_sqrt b r * xstar np_sqrt b r - b * (r_H sigma b - 1)).
Proof.
  intros Hden. unfold J, trace3, minors3, det3.
  set (xs := xstar np_sqrt b r).
  split; [ring|]. split; [ring|]. split; [ring|].
  unfold r_H. field. exact Hden.
Qed.

Lemma r_H_is_Hopf_value_witness :
  trace3 (J (fun _ => 8) 10 (8 # 3) (r_H 10 (8 # 3)))
    == - (10 + (8 # 3) + 1) /\
  minors3 (J (fun _ => 8) 10 (8 # 3) (r_H 10 (8 # 3)))
    == 10 * (8 # 3) + (8 # 3)
       + xstar (fun _ => 8) (8 # 3) (r_H 10 (8 # 3))
         * xstar (fun _ => 8) (8 # 3) (r_H 10 (8 # 3)) /\
  det3 (J (fun _ => 8) 10 (8 # 3) (r_H 10 (8 # 3)))
    == - (2 * 10 * (xstar (fun _ => 8) (8 # 3) (r_H 10 (8 # 3))
                    * xstar (fun _ => 8) (8 # 3) (r_H 10 (8 # 3)))) /\
  trace3 (J (fun _ => 8) 10 (8 # 3) (r_H 10 (8 # 3)))
    * minors3 (J (fun _ => 8) 10 (8 # 3) (r_H 10 (8 # 3)))
    - det3 (J (fun _ => 8) 10 (8 # 3) (r_H 10 (8 # 3)))
    == (10 - (8 # 3) - 1)
       * (xstar (fun _ => 8) (8 # 3) (r_H 10 (8 # 3))
          * xstar (fun _ => 8) (8 # 3) (r_H 10 (8 # 3))
          - (8 # 3) * (r_H 10 (8 # 3) - 1)).
Proof.
  apply (r_H_is_Hopf_value (fun _ => 8) 10 (8 # 3) (r_H 10 (8 # 3))).
  discriminate.
Defined.

Example r_H_of_the_cell : r_H 10 (8 # 3) == 470 # 19.
Proof. reflexivity. Qed.

(** ** The peak extraction on short, overflowing, rising, shifted and
    mirrored series *)

Lemma filter_none {A} (p : A -> bool) (l : list A) :
  (forall x, In x l -> p x = false) -> List.filter p l = [].
Proof.
  induction l as [|x l IH]; intros Hall; simpl; [reflexivity|].
  rewrite (Hall x) by (by left). apply IH. intros y Hy. apply Hall. by right.
Qed.

(** X6. A series of fewer than three samples has no tested index: the cell
    returns without an error, with [dZ] all zero and [icross], [Zextreme] and
    [Zn] empty. *)
Theorem short_series_no_extremes (Zs : list Q) :
  (length Zs < 3)%nat ->
  dZ Zs = Ok (replicate (length Zs) 0) /\
  icross Zs = Ok [] /\ Zextreme Zs = Ok [] /\ Zn Zs = Ok [].
Proof.
  intros Hn.
  destruct Zs as [|z0 [|z1 [|z2 rest]]]; simpl in Hn; try lia;
    repeat split; reflexivity.
Qed.

Lemma short_series_no_extremes_witness :
  dZ [7; 9] = Ok (replicate (length [7; 9]) 0) /\
  icross [7; 9] = Ok [] /\ Zextreme [7; 9] = Ok [] /\ Zn [7; 9] = Ok [].
Proof.
  apply (short_series_no_extremes [7; 9]). simpl. lia.
Defined.

(** X7. On a series of at least four samples the last tested index,
    [len(Z)-3], is selected exactly when [dZ[len(Z)-3]], the difference
    [Z[len(Z)-2] - Z[len(Z)-4]], is finite: [dZ[len(Z)-2]] is a boundary
    zero, so the product is a zero then, and the index ends [icross].  When
    the difference overflows the product is nan and the index is not
    selected. *)
Theorem last_tested_sample_extreme_unless_overflow (Zs : list float)
  (a c : float) :
  (4 <= length Zs)%nat ->
  Zs !! (length Zs - 4)%nat = Some a -> Zs !! (length Zs - 2)%nat = Some c ->
  exists ic,
    Float64.icross Zs = Ok ic /\
    if PrimFloat.is_finite (PrimFloat.sub c a)
    then exists ic', ic = ic' ++ [(length Zs - 3)%nat]
    else (length Zs - 3)%nat ∉ ic.
Proof.
  intros Hn Ha Hc. exists (Float64.crossings Zs).
  split; [apply double_icross_total|].
  unfold Float64.crossings.
  replace (length Zs - 2)%nat with (S (length Zs - 3)) by lia.
  rewrite seq_S, List.filter_app. cbn [List.filter Nat.add].
  rewrite (double_cross_at_last Zs a c Hn Ha Hc).
  destruct (PrimFloat.is_finite (PrimFloat.sub c a)); [eauto|].
  rewrite app_nil_r. intros Hin.
  apply list_elem_of_In, List.filter_In in Hin as [Hin _].
  apply in_seq in Hin. lia.
Qed.

Lemma last_tested_sample_extreme_unless_overflow_witness :
  exists ic,
    Float64.icross [1; 2; 3; 4; 5]%float = Ok ic /\
    if PrimFloat.is_finite (PrimFloat.sub 4 2)
    then exists ic', ic = ic' ++ [(length [1; 2; 3; 4; 5]%float - 3)%nat]
    else (length [1; 2; 3; 4; 5]%float - 3)%nat ∉ ic.
Proof.
  apply (last_tested_sample_extreme_unless_overflow [1; 2; 3; 4; 5]%float
           2%float 4%float); [simpl; lia | reflexivity | reflexivity].
Defined.

(** X8. A strictly rising series is not always reported with the two
    boundary indices only.  On [1, 2, 4, 7, 11] the interior index 1 is not
    selected; on the rising series [k * 2^-600], [k = 1 .. 5], the product
    of two differences underflows to zero, the test [<= 0] holds, and the
    interior index 1 is selected as well. *)
Theorem rising_series_underflow_selects_interior :
  Float64.strictly_increasing [1; 2; 4; 7; 11]%float /\
  Float64.icross [1; 2; 4; 7; 11]%float = Ok [0; 2]%nat /\
  Float64.strictly_increasing
    [0x1p-600; 0x2p-600; 0x3p-600; 0x4p-600; 0x5p-600]%float /\
  Float64.icross [0x1p-600; 0x2p-600; 0x3p-600; 0x4p-600; 0x5p-600]%float =
    Ok [0; 1; 2]%nat.
Proof.
  repeat split; try reflexivity; intros i a b Ha Hb;
    do 5 (destruct i as [|i]; [simpl in Ha, Hb; simplify_eq; reflexivity|]);
    discriminate.
Qed.

(** X9. The selection is not invariant under a shift of the samples: on the
    rising series [2^-60, 2^-59, 2^-58, 2^-57, 2^-56] the indices 0 and 2
    are selected; adding 1.0 to every sample absorbs them all into 1.0, the
    differences vanish, and every tested index is selected. *)
Theorem shift_absorbs_small_samples :
  Float64.icross [0x1p-60; 0x1p-59; 0x1p-58; 0x1p-57; 0x1p-56]%float =
    Ok [0; 2]%nat /\
  map (fun z => PrimFloat.add z 1%float)
      [0x1p-60; 0x1p-59; 0x1p-58; 0x1p-57; 0x1p-56]%float =
    [1; 1; 1; 1; 1]%float /\
  Float64.icross
    (map (fun z => PrimFloat.add z 1%float)
         [0x1p-60; 0x1p-59; 0x1p-58; 0x1p-57; 0x1p-56]%float) =
    Ok [0; 1; 2]%nat.
Proof. repeat split. Qed.

(** X25. In double precision the cell takes the same steps as in exact
    arithmetic, and it never fails: [dZ] holds the rounded difference
    [Z[i+1] - Z[i-1]] at the indices 1 .. len(Z)-3 and 0 at the boundary
    indices; [icross] is exactly the indices [i] between 0 and len(Z)-3 at
    which the rounded product [dZ[i]*dZ[i+1]] compares [<= 0] (a nan
    product does not); [Zextreme] is [Z] at those indices; [Zn] keeps
    exactly the values to which the mean compares [<]. *)
Theorem double_peak_extraction_steps np_mean (Zs : list float) :
  Float64.dZ Zs = Ok (map (Float64.dZ_entry Zs) (seq 0 (length Zs))) /\
  Float64.icross Zs = Ok (Float64.crossings Zs) /\
  (forall i : nat,
     i ∈ Float64.crossings Zs <->
     (i + 3 <= length Zs)%nat /\
     PrimFloat.leb (PrimFloat.mul (Float64.dZ_entry Zs i)
                                  (Float64.dZ_entry Zs (i + 1))) 0%float
       = true) /\
  Float64.Zextreme Zs = Ok (map (fun i => Zs !!! i) (Float64.crossings Zs)) /\
  Float64.Zn np_mean Zs =
    Ok (List.filter (fun v => PrimFloat.ltb (Float64.meanZ np_mean Zs) v)
          (map (fun i => Zs !!! i) (Float64.crossings Zs))).
Proof.
  split; [apply double_dZ_total|].
  split; [apply double_icross_total|].
  split; [|split; [apply double_Zextreme_total | apply double_Zn_total]].
  intros i. unfold Float64.crossings.
  rewrite list_elem_of_In, List.filter_In, in_seq.
  unfold Float64.cross_at. intuition lia.
Qed.

Lemma dZ_entry_fmap (f : Q -> Q) (Zs : list Q) (i : nat) :
  dZ_entry (map f Zs) i =
  if decide (1 <= i /\ i + 3 <= length Zs)%nat
  then f (Zs !!! (i + 1)%nat) - f (Zs !!! (i - 1)%nat)
  else 0.
Proof.
  unfold dZ_entry. rewrite length_map. case_decide as Hi; [|reflexivity].
  change (map f Zs) with (f <$> Zs).
  rewrite (list_lookup_total_fmap f Zs (i + 1)) by lia.
  by rewrite (list_lookup_total_fmap f Zs (i - 1)) by lia.
Qed.

Lemma crossings_ext (Zs Zs' : list Q) :
  length Zs' = length Zs ->
  (forall i : nat, (i + 3 <= length Zs)%nat -> cross_at Zs' i = cross_at Zs i) ->
  crossings Zs' = crossings Zs.
Proof.
  intros Hlen Hext. unfold crossings. rewrite Hlen.
  apply List.filter_ext_in. intros i Hi. apply in_seq in Hi.
  apply Hext. lia.
Qed.

Lemma crossings_mirror (Zs : list Q) :
  crossings (map Qopp Zs) = crossings Zs.
Proof.
  apply crossings_ext; [apply length_map|]. intros i _.
  unfold cross_at. rewrite !dZ_entry_fmap. unfold dZ_entry.
  assert (Hm : forall a b c d : Q,
             (- a - - b) * (- c - - d) == (a - b) * (c - d)) by (intros; ring).
  repeat case_decide; rewrite ?Hm, ?Qmult_0_r, ?Qmult_0_l; reflexivity.
Qed.

Lemma np_sum_mirror (Zs : list Q) : np_sum (map Qopp Zs) == - np_sum Zs.
Proof.
  unfold np_sum. induction Zs as [|z Zs IH]; simpl; [ring|].
  rewrite IH. ring.
Qed.

Lemma inject_length_nonzero {A} (l : list A) :
  l <> [] -> ~ inject_Z (Z.of_nat (length l)) == 0.
Proof.
  intros Hne Hz. destruct l as [|x l]; [done|].
  unfold Qeq, inject_Z in Hz. simpl in Hz. lia.
Qed.

Lemma np_mean_mirror (Zs : list Q) : np_mean (map Qopp Zs) == - np_mean Zs.
Proof.
  unfold np_mean. rewrite np_sum_mirror, length_map.
  destruct Zs as [|z Zs]; [reflexivity|].
  field. by apply (inject_length_nonzero (z :: Zs)).
Qed.

Lemma Qlt_bool_ext (a b c d : Q) :
  (a < b <-> c < d) -> Qlt_bool a b = Qlt_bool c d.
Proof.
  intros Hiff. rewrite <- !Qlt_bool_iff in Hiff.
  destruct (Qlt_bool a b), (Qlt_bool c d); intuition congruence.
Qed.

Lemma filter_fmap_Forall2 (f : Q -> Q) (p p' : Q -> bool) (l : list Q) :
  (forall v, p' (f v) = p v) ->
  Forall2 (fun v v' => v' = f v) (List.filter p l) (List.filter p' (map f l)).
Proof.
  intros Hp. induction l as [|v l IH]; simpl; [constructor|].
  rewrite Hp. destruct (p v); [by constructor | exact IH].
Qed.

Lemma samples_fmap (f : Q -> Q) (Zs : list Q) (ic : list nat) :
  Forall (fun i => (i < length Zs)%nat) ic ->
  map (fun i => map f Zs !!! i) ic = map f (map (fun i => Zs !!! i) ic).
Proof.
  induction 1 as [|i ic Hi _ IH]; simpl; [reflexivity|].
  rewrite IH. f_equal. change (map f Zs) with (f <$> Zs).
  by rewrite (list_lookup_total_fmap f Zs i).
Qed.

(** X10. The crossing test cannot tell a maximum from a minimum: on the
    mirrored series [-Z] it selects the same indices.  Only the mean filter
    differs, and on [-Z] it keeps the mirrored samples that lie strictly
    below the mean of [Z]. *)
Theorem crossing_test_blind_to_sign (Zs : list Q) :
  icross (map Qopp Zs) = icross Zs /\
  exists ze zn',
    Zextreme Zs = Ok ze /\ Zn (map Qopp Zs) = Ok zn' /\
    Forall2 (fun v v' => v' = - v)
            (List.filter (fun v => Qlt_bool v (meanZ Zs)) ze) zn'.
Proof.
  rewrite !icross_total, Zextreme_total, Zn_total, crossings_mirror.
  split; [reflexivity|]. do 2 eexists. split; [reflexivity|].
  split; [reflexivity|].
  rewrite samples_fmap by apply crossings_in_range.
  apply filter_fmap_Forall2. intros v. unfold meanZ.
  apply Qlt_bool_ext. rewrite np_mean_mirror.
  split; intros H; [apply Qopp_lt_compat in H; by rewrite !Qopp_involutive in H
                   | by apply Qopp_lt_compat].
Qed.

Lemma filter_seq_sorted (p : nat -> bool) (a n : nat) :
  StronglySorted lt (List.filter p (seq a n)).
Proof.
  revert a. induction n as [|n IH]; intros a; simpl; [constructor|].
  destruct (p a); [|apply IH]. constructor; [apply IH|].
  apply Forall_forall. intros i Hi.
  apply list_elem_of_In, List.filter_In in Hi as [Hi _]. apply in_seq in Hi. lia.
Qed.

Lemma filter_sublist_bool {A} (p : A -> bool) (l : list A) :
  sublist (List.filter p l) l.
Proof.
  induction l as [|x l IH]; simpl; [constructor|].
  destruct (p x); by constructor.
Qed.

(** X11. The selection keeps the order of time: [icross] is strictly
    increasing and stays within 0 .. len(Z)-3, [Zextreme] has one value per
    selected index, and [Zn] is a subsequence of [Zextreme], so it has at
    most len(Z)-2 elements. *)
Theorem peak_extraction_keeps_time_order (Zs : list Q) :
  exists ic ze zn,
    icross Zs = Ok ic /\ Zextreme Zs = Ok ze /\ Zn Zs = Ok zn /\
    StronglySorted lt ic /\
    Forall (fun i => (i + 3 <= length Zs)%nat) ic /\
    Forall2 (fun i v => Zs !! i = Some v) ic ze /\
    sublist zn ze /\
    (length zn <= length Zs - 2)%nat.
Proof.
  do 3 eexists.
  split; [apply icross_total|]. split; [apply Zextreme_total|].
  split; [apply Zn_total|].
  split; [apply filter_seq_sorted|].
  assert (Hrange : Forall (fun i => (i + 3 <= length Zs)%nat) (crossings Zs)).
  { apply Forall_forall. intros i Hi. by apply elem_of_crossings in Hi as [? _]. }
  split; [exact Hrange|].
  split.
  { induction Hrange as [|i ic Hi _ IH]; simpl; constructor; [|exact IH].
    destruct (lookup_lt_is_Some_2 Zs i) as [v Hv]; [lia|].
    by rewrite (list_lookup_total_correct _ _ _ Hv). }
  split; [apply filter_sublist_bool|].
  etransitivity; [apply sublist_length, filter_sublist_bool|].
  rewrite length_map. unfold crossings.
  etransitivity; [apply sublist_length, filter_sublist_bool|].
  by rewrite length_seq.
Qed.

(** X12. The Lorenz map plots the points [(Zn[k], Zn[k+1])] for
    [k = 0 .. len(Zn)-3]: the two slices have the same length, so the plot
    call is well formed, the last pair [(Zn[len-2], Zn[len-1])] is left out,
    and fewer than three maxima give no point. *)
Theorem lorenz_map_pairs (zn : list Q) :
  length (lorenz_map_points zn).1 = (length zn - 2)%nat /\
  length (lorenz_map_points zn).2 = (length zn - 2)%nat /\
  forall k : nat,
    ((lorenz_map_points zn).1 !! k, (lorenz_map_points zn).2 !! k) =
    if decide (k + 2 < length zn)%nat
    then (zn !! k, zn !! (k + 1)%nat)
    else (None, None).
Proof.
  unfold lorenz_map_points. simpl.
  change (Some 1%Z) with (Some (Z.of_nat 1)).
  change (Some (-1)%Z) with (Some (- Z.of_nat 1)%Z).
  change (Some (-2)%Z) with (Some (- Z.of_nat 2)%Z).
  rewrite py_slice_pos_neg, py_slice_none_neg by lia.
  split; [rewrite length_take; lia|].
  split; [rewrite length_take, length_drop; lia|].
  intros k. case_decide as Hk.
  - rewrite !lookup_take_lt, lookup_drop by lia.
    by replace (Nat.min 1 (length zn) + k)%nat with (k + 1)%nat by lia.
  - by rewrite !lookup_take_ge by lia.
Qed.

(** ** The fitting window of the Liapunov estimate *)

Lemma np_nonzero_map {A} (p : A -> bool) (l : list A) :
  np_nonzero (map p l) =
  List.filter (fun i => match l !! i with Some v => p v | None => false end)
              (seq 0 (length l)).
Proof.
  unfold np_nonzero. rewrite nonzero_from_filter, length_map.
  apply List.filter_ext_in. intros i _. rewrite Nat.sub_0_r.
  change (map p l) with (p <$> l). rewrite list_lookup_fmap.
  destruct (l !! i) as [v|]; [|reflexivity].
  change (p <$> Some v) with (Some (p v)).
  destruct (p v); [by apply bool_decide_eq_true_2
                  | by apply bool_decide_eq_false_2].
Qed.

Lemma filter_seq_first (q : nat -> bool) (a n i : nat) (rest : list nat) :
  List.filter q (seq a n) = i :: rest ->
  q i = true /\ (a <= i < a + n)%nat /\
  forall j, (a <= j < i)%nat -> q j = false.
Proof.
  revert a. induction n as [|n IH]; intros a; simpl; [discriminate|].
  destruct (q a) eqn:Hq.
  - intros [= <- _]. split; [done|]. split; [lia|]. intros j Hj. lia.
  - intros Hf. destruct (IH _ Hf) as [Hi [Hr Hbefore]].
    split; [done|]. split; [lia|]. intros j Hj.
    destruct (decide (j = a)) as [->|Hne]; [done|]. apply Hbefore. lia.
Qed.

Lemma filter_seq_nil (q : nat -> bool) (a n : nat) :
  List.filter q (seq a n) = [] ->
  forall j, (a <= j < a + n)%nat -> q j = false.
Proof.
  intros Hnil j Hj. apply not_true_is_false. intros Hq.
  assert (Hin : In j (List.filter q (seq a n)))
    by (apply List.filter_In; split; [apply in_seq; lia | done]).
  by rewrite Hnil in Hin.
Qed.

Lemma filter_seq_last (q : nat -> bool) (a n : nat) :
  match last (List.filter q (seq a n)) with
  | Some i => q i = true /\ (a <= i < a + n)%nat /\
              forall j, (i < j < a + n)%nat -> q j = false
  | None => forall j, (a <= j < a + n)%nat -> q j = false
  end.
Proof.
  induction n as [|n IH]; [simpl; intros j Hj; lia|].
  rewrite seq_S, List.filter_app. simpl.
  destruct (q (a + n)%nat) eqn:Hq.
  - rewrite last_snoc. split; [done|]. split; [lia|]. intros j Hj. lia.
  - rewrite app_nil_r.
    destruct (last (List.filter q (seq a n))) as [i|].
    + destruct IH as [Hi [Hr Hafter]]. split; [done|]. split; [lia|].
      intros j Hj. destruct (decide (j = a + n)%nat) as [->|Hne]; [done|].
      apply Hafter. lia.
    + intros j Hj. destruct (decide (j = a + n)%nat) as [->|Hne]; [done|].
      apply IH. lia.
Qed.

Lemma Qlt_bool_false (x y : Q) : Qlt_bool x y = false -> y <= x.
Proof.
  intros Hf. apply Qnot_lt_le. intros Hlt.
  apply Qlt_bool_iff in Hlt. congruence.
Qed.

Lemma imin_spec (t : list Q) (tmin : Q) :
  match imin t tmin with
  | Ok i => (exists v, t !! i = Some v /\ v < tmin) /\
            forall (j : nat) u, (i < j)%nat -> t !! j = Some u -> tmin <= u
  | Raise e => e = IndexError /\ Forall (fun u => tmin <= u) t
  end.
Proof.
  unfold imin, argwhere_last. rewrite np_nonzero_map.
  pose proof (filter_seq_last
    (fun i => match t !! i with Some v => Qlt_bool v tmin | None => false end)
    0 (length t)) as Hlast.
  destruct (last _) as [i|].
  - destruct Hlast as [Hi [Hr Hafter]]. split.
    + destruct (t !! i) as [v|]; [|discriminate].
      exists v. split; [done | by apply Qlt_bool_iff].
    + intros j u Hj Hu. pose proof (lookup_lt_Some _ _ _ Hu) as Hlt.
      specialize (Hafter j ltac:(lia)). rewrite Hu in Hafter.
      by apply Qlt_bool_false.
  - split; [reflexivity|]. apply Forall_forall. intros u Hu.
    apply list_elem_of_lookup in Hu as [j Hj].
    pose proof (lookup_lt_Some _ _ _ Hj) as Hlt.
    specialize (Hlast j ltac:(lia)). rewrite Hj in Hlast.
    by apply Qlt_bool_false.
Qed.

Lemma imax_spec (t : list Q) (tmax : Q) :
  match imax t tmax with
  | Ok i => (exists v, t !! i = Some v /\ tmax < v) /\
            forall (j : nat) u, (j < i)%nat -> t !! j = Some u -> u <= tmax
  | Raise e => e = IndexError /\ Forall (fun u => u <= tmax) t
  end.
Proof.
  unfold imax, argwhere_first. rewrite np_nonzero_map.
  destruct (List.filter _ _) as [|i rest] eqn:Hf.
  - split; [reflexivity|]. apply Forall_forall. intros u Hu.
    apply list_elem_of_lookup in Hu as [j Hj].
    pose proof (lookup_lt_Some _ _ _ Hj) as Hlt.
    pose proof (filter_seq_nil _ _ _ Hf j ltac:(lia)) as Hq.
    simpl in Hq. rewrite Hj in Hq. by apply Qlt_bool_false.
  - destruct (filter_seq_first _ _ _ _ _ Hf) as [Hi [Hr Hbefore]]. split.
    + destruct (t !! i) as [v|]; [|discriminate].
      exists v. split; [done | by apply Qlt_bool_iff].
    + intros j u Hj Hu. specialize (Hbefore j ltac:(lia)).
      simpl in Hbefore. rewrite Hu in Hbefore. by apply Qlt_bool_false.
Qed.

(** X13. The two ends of the fitting window.  [imin] is the last index whose
    time is below [tmin] and [imax] the first index whose time is above
    [tmax]; when no sample lies below [tmin], or none above [tmax], the
    subscript raises IndexError. *)
Theorem fit_window_ends (t : list Q) (tmin tmax : Q) :
  match imin t tmin with
  | Ok i => (exists v, t !! i = Some v /\ v < tmin) /\
            forall (j : nat) u, (i < j)%nat -> t !! j = Some u -> tmin <= u
  | Raise e => e = IndexError /\ Forall (fun u => tmin <= u) t
  end /\
  match imax t tmax with
  | Ok i => (exists v, t !! i = Some v /\ tmax < v) /\
            forall (j : nat) u, (j < i)%nat -> t !! j = Some u -> u <= tmax
  | Raise e => e = IndexError /\ Forall (fun u => u <= tmax) t
  end.
Proof. split; [apply imin_spec | apply imax_spec]. Qed.

Lemma py_slice_nonneg {A} (l : list A) (a b : nat) :
  py_slice l (Some (Z.of_nat a)) (Some (Z.of_nat b)) =
  take (Nat.min b (length l) - Nat.min a (length l))
       (drop (Nat.min a (length l)) l).
Proof.
  unfold py_slice, slice_start, slice_stop. by rewrite !clip_nonneg.
Qed.

(** X14. The fitted window [tfit = t[imin:imax]] runs from the index [imin]
    up to, not including, [imax].  Its first sample is the one below [tmin],
    every later sample lies in [tmin, tmax], and on a time grid that never
    steps back, with [tmin <= tmax], the window is not empty. *)
Theorem fit_window_contents (t : list Q) (tmin tmax : Q) (i j : nat) :
  imin t tmin = Ok i -> imax t tmax = Ok j ->
  exists w,
    tfit t tmin tmax = Ok w /\
    length w = (j - i)%nat /\
    (forall k : nat, (k < j - i)%nat -> w !! k = t !! (i + k)%nat) /\
    (forall u, w !! 0%nat = Some u -> u < tmin) /\
    (forall (k : nat) u, (0 < k)%nat -> w !! k = Some u ->
                         tmin <= u /\ u <= tmax) /\
    (nondecreasing t -> tmin <= tmax -> (i < j)%nat).
Proof.
  intros Hi Hj.
  pose proof (imin_spec t tmin) as Hmin. rewrite Hi in Hmin.
  pose proof (imax_spec t tmax) as Hmax. rewrite Hj in Hmax.
  destruct Hmin as [[vi [Hvi Hlow]] Hafter].
  destruct Hmax as [[vj [Hvj Hhigh]] Hbefore].
  pose proof (lookup_lt_Some _ _ _ Hvi) as Hin.
  pose proof (lookup_lt_Some _ _ _ Hvj) as Hjn.
  unfold tfit. rewrite Hi, Hj. simpl. rewrite py_slice_nonneg.
  replace (Nat.min j (length t)) with j by lia.
  replace (Nat.min i (length t)) with i by lia.
  eexists. split; [reflexivity|].
  assert (Hlook : forall k : nat, (k < j - i)%nat ->
            take (j - i) (drop i t) !! k = t !! (i + k)%nat).
  { intros k Hk. by rewrite lookup_take_lt, lookup_drop by lia. }
  split; [rewrite length_take, length_drop; lia|].
  split; [exact Hlook|].
  split.
  { intros u Hu. pose proof (lookup_lt_Some _ _ _ Hu) as Hlen.
    rewrite length_take in Hlen. rewrite Hlook in Hu by lia.
    rewrite Nat.add_0_r, Hvi in Hu. by injection Hu as <-. }
  split.
  { intros k u Hk Hu. pose proof (lookup_lt_Some _ _ _ Hu) as Hlen.
    rewrite length_take in Hlen. rewrite Hlook in Hu by lia.
    split; [apply (Hafter (i + k)%nat); [lia | done]
           | apply (Hbefore (i + k)%nat); [lia | done]]. }
  intros Hsorted Hle. destruct (decide (i < j)%nat) as [|Hge]; [done|].
  assert (Hji : vj <= vi) by (apply (Hsorted j i); [lia | done | done]).
  lra.
Qed.

Lemma fit_window_contents_witness :
  exists w,
    tfit [0; 1 # 2; 1; 3 # 2; 2; 5 # 2] 1 2 = Ok w /\
    length w = (5 - 1)%nat /\
    (forall k : nat, (k < 5 - 1)%nat ->
       w !! k = [0; 1 # 2; 1; 3 # 2; 2; 5 # 2] !! (1 + k)%nat) /\
    (forall u, w !! 0%nat = Some u -> u < 1) /\
    (forall (k : nat) u, (0 < k)%nat -> w !! k = Some u -> 1 <= u /\ u <= 2) /\
    (nondecreasing [0; 1 # 2; 1; 3 # 2; 2; 5 # 2] -> 1 <= 2 -> (1 < 5)%nat).
Proof.
  apply (fit_window_contents [0; 1 # 2; 1; 3 # 2; 2; 5 # 2] 1 2 1 5);
    reflexivity.
Defined.

Example tfit_starts_below_tmin :
  tfit [0; 1 # 2; 1; 3 # 2; 2; 5 # 2] 1 2 = Ok [1 # 2; 1; 3 # 2; 2] /\
  imin [1; 2; 3] 1 = Raise IndexError /\
  imax [1; 2; 3] 3 = Raise IndexError.
Proof. repeat split. Qed.

(** ** The figure [bifurcation_plot] leaves *)

(** X15. On arrays [r] and [x] of two or more elements each a call returns
    and leaves one new figure on top of the figures that were there, which
    it does not touch.  The new figure holds no contour (it was cleared),
    two lines per contour path, the labels ["parameter " + rlabel] and
    ["x"], the legend entries (stable, unstable) when the contour has a path
    and an empty legend when it has none, and the limits [(r[0], r[-1])] and
    [(x[0], x[-1])], the first and last elements of the arrays. *)
Theorem bifurcation_plot_final_figure zero_contour (f f_x : Q -> Q -> Q)
  (r x : loc) (rlabel : string) (w : world) (r0 r1 x0 x1 : Q)
  (rs xs : list Q) :
  heap w !! r = Some (r0 :: r1 :: rs) ->
  heap w !! x = Some (x0 :: x1 :: xs) ->
  bifurcation_plot zero_contour f f_x r x rlabel w =
  (Ok tt,
   World (heap w)
     (Figure []
        (flat_map (fun path =>
                     [branch_line (is_stable f_x) "b" path;
                      branch_line (is_unstable f_x) "b--" path])
                  (contour_paths zero_contour f (r0 :: r1 :: rs)
                     (x0 :: x1 :: xs)))
        true
        ("parameter " +:+ rlabel) "x"
        (Some match contour_paths zero_contour f (r0 :: r1 :: rs)
                      (x0 :: x1 :: xs) with
              | [] => []
              | _ :: _ => ["stable"; "unstable"]
              end)
        (Some (r0, List.last rs r1)) (Some (x0, List.last xs x1))
      :: figures w)).
Proof.
  intros Hr Hx.
  rewrite (bifurcation_plot_full _ _ _ _ _ _ _ _ _ Hr Hx).
  unfold diagram, axis_limits. by rewrite !List_last_cons.
Qed.

Lemma bifurcation_plot_final_figure_witness :
  bifurcation_plot parabola_contour saddle_node_f saddle_node_f_x
    1%positive 2%positive "r" grid_world =
  (Ok tt,
   World (heap grid_world)
     (Figure []
        (flat_map (fun path =>
                     [branch_line (is_stable saddle_node_f_x) "b" path;
                      branch_line (is_unstable saddle_node_f_x) "b--" path])
                  (contour_paths parabola_contour saddle_node_f
                     (-4 :: 0 :: [4]) (-4 :: 0 :: [4])))
        true
        ("parameter " +:+ "r") "x"
        (Some match contour_paths parabola_contour saddle_node_f
                      (-4 :: 0 :: [4]) (-4 :: 0 :: [4]) with
              | [] => []
              | _ :: _ => ["stable"; "unstable"]
              end)
        (Some (-4, List.last [4] 0)) (Some (-4, List.last [4] 0))
      :: figures grid_world)).
Proof.
  apply (bifurcation_plot_final_figure parabola_contour saddle_node_f
           saddle_node_f_x 1%positive 2%positive "r" grid_world
           (-4) 0 (-4) 0 [4] [4]); reflexivity.
Defined.

Example saddle_node_diagram :
  bifurcation_plot parabola_contour saddle_node_f saddle_node_f_x
    1%positive 2%positive "r" grid_world =
  (Ok tt,
   World (heap grid_world)
     [Figure [] [Line [-1; -4] [-1; -2] "b"; Line [-4; -1] [2; 1] "b--"]
        true "parameter r" "x" (Some ["stable"; "unstable"])
        (Some (-4, 4)) (Some (-4, 4))]).
Proof. reflexivity. Qed.

Example no_path_no_legend_entry :
  bifurcation_plot (fun _ _ _ => []) saddle_node_f saddle_node_f_x
    1%positive 2%positive "r" grid_world =
  (Ok tt,
   World (heap grid_world)
     [Figure [] [] true "parameter r" "x" (Some [])
        (Some (-4, 4)) (Some (-4, 4))]).
Proof. reflexivity. Qed.

(** X16. A call with an empty or one-element array fails early: the
    TypeError comes from [plt.contour], right after [plt.figure()], so the
    new figure stays and is empty, without a line, a label, a legend or a
    limit; [r[0]] and [x[0]] are not reached, and no IndexError is
    raised. *)
Theorem bifurcation_plot_fails_in_contour zero_contour
  (f f_x : Q -> Q -> Q) (r x : loc) (rlabel : string) (w : world)
  (rs xs : list Q) :
  heap w !! r = Some rs -> heap w !! x = Some xs ->
  (length rs < 2)%nat \/ (length xs < 2)%nat ->
  bifurcation_plot zero_contour f f_x r x rlabel w =
  (Raise TypeError, World (heap w) (new_figure :: figures w)).
Proof.
  intros Hr Hx Hsmall.
  rewrite (bifurcation_plot_full _ _ _ _ _ _ _ _ _ Hr Hx).
  destruct (Nat.leb_spec 2 (length rs)), (Nat.leb_spec 2 (length xs));
    try reflexivity.
  lia.
Qed.

Lemma bifurcation_plot_fails_in_contour_witness :
  bifurcation_plot parabola_contour saddle_node_f saddle_node_f_x
    1%positive 2%positive "r"
    (World {[1%positive := [-4; 4]; 2%positive := []]} []) =
  (Raise TypeError,
   World (heap (World {[1%positive := [-4; 4]; 2%positive := []]} []))
     (new_figure ::
      figures (World {[1%positive := [-4; 4]; 2%positive := []]} []))).
Proof.
  apply (bifurcation_plot_fails_in_contour parabola_contour saddle_node_f
           saddle_node_f_x 1%positive 2%positive "r"
           (World {[1%positive := [-4; 4]; 2%positive := []]} [])
           [-4; 4] []); [reflexivity | reflexivity | right; simpl; lia].
Defined.

(** ** The two branches of a path *)

Lemma slope_trichotomy (f_x : Q -> Q -> Q) (v : Q * Q) :
  (is_stable f_x v = true /\ is_unstable f_x v = false /\
   is_neutral f_x v = false) \/
  (is_stable f_x v = false /\ is_unstable f_x v = true /\
   is_neutral f_x v = false) \/
  (is_stable f_x v = false /\ is_unstable f_x v = false /\
   is_neutral f_x v = true).
Proof.
  unfold is_stable, is_unstable, is_neutral, Qlt_bool.
  rewrite <- (Qcompare_antisym (f_x v.1 v.2) 0).
  destruct (f_x v.1 v.2 ?= 0) eqn:Hc; simpl.
  - right; right. repeat split. apply Qeq_bool_iff. by apply Qeq_alt.
  - left. repeat split. apply not_true_is_false. intros He.
    apply Qeq_bool_iff, Qeq_alt in He. congruence.
  - right; left. repeat split. apply not_true_is_false. intros He.
    apply Qeq_bool_iff, Qeq_alt in He. congruence.
Qed.

(** X17. The two lines of a path share no vertex and keep the order of the
    path: each is a subsequence of the path's vertices, no vertex is on both,
    and the vertices of the two lines together with the vertices of zero
    slope count up to the length of the path. *)
Theorem branches_partition_path (f_x : Q -> Q -> Q) (path : list (Q * Q)) :
  sublist (line_vertices (branch_line (is_stable f_x) "b" path)) path /\
  sublist (line_vertices (branch_line (is_unstable f_x) "b--" path)) path /\
  (forall v, ~ (v ∈ line_vertices (branch_line (is_stable f_x) "b" path) /\
                v ∈ line_vertices (branch_line (is_unstable f_x) "b--" path)))
  /\
  (length (line_vertices (branch_line (is_stable f_x) "b" path))
   + length (line_vertices (branch_line (is_unstable f_x) "b--" path))
   + length (List.filter (is_neutral f_x) path) = length path)%nat.
Proof.
  rewrite !line_vertices_branch.
  split; [apply filter_sublist_bool|]. split; [apply filter_sublist_bool|].
  split.
  - intros v [Hs Hu].
    apply list_elem_of_In, List.filter_In in Hs as [_ Hs].
    apply list_elem_of_In, List.filter_In in Hu as [_ Hu].
    destruct (slope_trichotomy f_x v) as [H | [H | H]];
      destruct H as [H1 [H2 H3]]; congruence.
  - induction path as [|v path IH]; simpl; [reflexivity|].
    destruct (slope_trichotomy f_x v) as [H | [H | H]];
      destruct H as [-> [-> ->]]; simpl; lia.
Qed.

(** X18. Masking does not break a line: where a path runs through stable
    vertices, then through a stretch of vertices that are not stable, and
    then through stable vertices again, its solid line is the one polyline
    through both stable parts, so the last vertex before the stretch and the
    first vertex after it are joined. *)
Theorem masked_branch_joins_across_gap (f_x : Q -> Q -> Q)
  (before gap after : list (Q * Q)) :
  Forall (fun v => is_stable f_x v = true) before ->
  Forall (fun v => is_stable f_x v = false) gap ->
  Forall (fun v => is_stable f_x v = true) after ->
  line_vertices (branch_line (is_stable f_x) "b" (before ++ gap ++ after)) =
  before ++ after.
Proof.
  intros Hb Hg Ha. rewrite Forall_forall in Hb, Hg, Ha.
  rewrite line_vertices_branch, !List.filter_app.
  rewrite (List.forallb_filter_id (is_stable f_x) before)
    by (apply forallb_forall; intros v Hv; by apply Hb, list_elem_of_In).
  rewrite (List.forallb_filter_id (is_stable f_x) after)
    by (apply forallb_forall; intros v Hv; by apply Ha, list_elem_of_In).
  rewrite (filter_none (is_stable f_x) gap); [reflexivity|].
  intros v Hv. by apply Hg, list_elem_of_In.
Qed.

Lemma masked_branch_joins_across_gap_witness :
  line_vertices
    (branch_line (is_stable supercritical_f_x) "b"
       ([(-1, 0); (-1 # 2, 0)] ++ [(1 # 2, 0)] ++ [(1, 1)])) =
  [(-1, 0); (-1 # 2, 0)] ++ [(1, 1)].
Proof.
  apply (masked_branch_joins_across_gap supercritical_f_x
           [(-1, 0); (-1 # 2, 0)] [(1 # 2, 0)] [(1, 1)]);
    repeat constructor.
Defined.

(** X19. The grid on which [f] is evaluated: [numpy.meshgrid(r, x)] gives
    two grids of [len(x)] rows, and at row [j], column [i] the parameter grid
    holds [r[i]], the state grid holds [x[j]], and [f(R, X)] holds
    [f(r[i], x[j])]: the first argument of [f] is the parameter. *)
Theorem meshgrid_evaluates_f (f : Q -> Q -> Q) (rs xs : list Q) (i j : nat)
  (ri xj : Q) :
  rs !! i = Some ri -> xs !! j = Some xj ->
  length (np_meshgrid rs xs).1 = length xs /\
  length (np_meshgrid rs xs).2 = length xs /\
  exists Rrow Xrow Frow,
    (np_meshgrid rs xs).1 !! j = Some Rrow /\ Rrow !! i = Some ri /\
    (np_meshgrid rs xs).2 !! j = Some Xrow /\ Xrow !! i = Some xj /\
    grid_map2 f (np_meshgrid rs xs).1 (np_meshgrid rs xs).2 !! j = Some Frow /\
    Frow !! i = Some (f ri xj) /\
    length Rrow = length rs /\ length Xrow = length rs /\
    length Frow = length rs.
Proof.
  intros Hi Hj. unfold np_meshgrid, grid_map2. simpl.
  pose proof (lookup_lt_Some _ _ _ Hi) as Hin.
  pose proof (lookup_lt_Some _ _ _ Hj) as Hjn.
  split; [apply length_replicate|]. split; [apply length_map|].
  exists rs, (replicate (length rs) xj), (zip_with f rs (replicate (length rs) xj)).
  assert (HR : replicate (length xs) rs !! j = Some rs)
    by (by apply lookup_replicate_2).
  assert (HX : map (fun xj0 => replicate (length rs) xj0) xs !! j =
               Some (replicate (length rs) xj)).
  { change (map ?g xs) with (g <$> xs). by rewrite list_lookup_fmap, Hj. }
  assert (Hxi : replicate (length rs) xj !! i = Some xj)
    by (by apply lookup_replicate_2).
  split; [exact HR|]. split; [exact Hi|].
  split; [exact HX|]. split; [exact Hxi|].
  split; [by rewrite lookup_zip_with, HR, HX|].
  split; [by rewrite lookup_zip_with, Hi, Hxi|].
  split; [reflexivity|]. split; [apply length_replicate|].
  rewrite length_zip_with, length_replicate. lia.
Qed.

Lemma meshgrid_evaluates_f_witness :
  length (np_meshgrid [-4; 0; 4] [1; 2]).1 = length [1; 2] /\
  length (np_meshgrid [-4; 0; 4] [1; 2]).2 = length [1; 2] /\
  exists Rrow Xrow Frow,
    (np_meshgrid [-4; 0; 4] [1; 2]).1 !! 1%nat = Some Rrow /\
    Rrow !! 2%nat = Some 4 /\
    (np_meshgrid [-4; 0; 4] [1; 2]).2 !! 1%nat = Some Xrow /\
    Xrow !! 2%nat = Some 2 /\
    grid_map2 saddle_node_f (np_meshgrid [-4; 0; 4] [1; 2]).1
              (np_meshgrid [-4; 0; 4] [1; 2]).2 !! 1%nat = Some Frow /\
    Frow !! 2%nat = Some (saddle_node_f 4 2) /\
    length Rrow = length [-4; 0; 4] /\ length Xrow = length [-4; 0; 4] /\
    length Frow = length [-4; 0; 4].
Proof.
  apply (meshgrid_evaluates_f saddle_node_f [-4; 0; 4] [1; 2] 2 1 4 2);
    reflexivity.
Defined.

(** ** The examples of Bifurcations.ipynb *)

(** X20. In each of the six examples the function passed as [f_x] is the
    partial derivative of [f] in [x]: the increment of [f] over a step [h]
    is [h * f_x] plus [h*h] times a polynomial. *)
Theorem examples_f_x_is_derivative (r x h : Q) :
  saddle_node_f r (x + h) - saddle_node_f r x
    == h * saddle_node_f_x r x + h * h * 1 /\
  harvest_f r (x + h) - harvest_f r x
    == h * harvest_f_x r x + h * h * - (1) /\
  transcritical_f r (x + h) - transcritical_f r x
    == h * transcritical_f_x r x + h * h * - (1) /\
  supercritical_f r (x + h) - supercritical_f r x
    == h * supercritical_f_x r x + h * h * - (3 * x + h) /\
  subcritical_f r (x + h) - subcritical_f r x
    == h * subcritical_f_x r x + h * h * (3 * x + h) /\
  stabilized_f r (x + h) - stabilized_f r x
    == h * stabilized_f_x r x
       + h * h * (3 * x + h
                  - (10 * x ^ 3 + 10 * x ^ 2 * h + 5 * x * h ^ 2 + h ^ 3)).
Proof.
  unfold saddle_node_f, saddle_node_f_x, harvest_f, harvest_f_x,
    transcritical_f, transcritical_f_x, supercritical_f, supercritical_f_x,
    subcritical_f, subcritical_f_x, stabilized_f, stabilized_f_x.
  repeat split; ring.
Qed.

Lemma Qsquare_pos (x : Q) : ~ x == 0 -> 0 < x * x.
Proof.
  intros Hx. destruct (Qlt_le_dec 0 x) as [Hpos|Hle].
  - nra.
  - destruct (Qlt_le_dec x 0) as [Hneg|Hge]; [nra|].
    exfalso. apply Hx. lra.
Qed.

Lemma is_stable_iff (f_x : Q -> Q -> Q) (r x : Q) :
  is_stable f_x (r, x) = true <-> f_x r x < 0.
Proof. unfold is_stable. simpl. apply Qlt_bool_iff. Qed.

Lemma is_unstable_iff (f_x : Q -> Q -> Q) (r x : Q) :
  is_unstable f_x (r, x) = true <-> 0 < f_x r x.
Proof. unfold is_unstable. simpl. apply Qlt_bool_iff. Qed.

(** X21. Example #1, the saddle node: a fixed point, [f(r, x) = 0], exists
    only for [r <= 0], and it is drawn stable iff [x < 0] and unstable iff
    [x > 0]. *)
Theorem saddle_node_branches (r x : Q) :
  saddle_node_f r x == 0 ->
  r <= 0 /\
  (is_stable saddle_node_f_x (r, x) = true <-> x < 0) /\
  (is_unstable saddle_node_f_x (r, x) = true <-> 0 < x).
Proof.
  unfold saddle_node_f. intros Hf.
  rewrite is_stable_iff, is_unstable_iff. unfold saddle_node_f_x.
  split; [nra|]. split; split; intros H; lra.
Qed.

Lemma saddle_node_branches_witness :
  -4 <= 0 /\
  (is_stable saddle_node_f_x (-4, 2) = true <-> 2 < 0) /\
  (is_unstable saddle_node_f_x (-4, 2) = true <-> 0 < 2).
Proof.
  apply (saddle_node_branches (-4) 2). reflexivity.
Defined.

(** X22. Example #3, the transcritical bifurcation: the fixed points are
    [x = 0] and [x = r], and the two branches exchange stability at [r = 0]:
    [x = 0] is drawn stable for [r < 0] and unstable for [r > 0], [x = r]
    the other way round. *)
Theorem transcritical_exchange_of_stability (r x : Q) :
  transcritical_f r x == 0 ->
  (x == 0 /\
   (is_stable transcritical_f_x (r, x) = true <-> r < 0) /\
   (is_unstable transcritical_f_x (r, x) = true <-> 0 < r)) \/
  (x == r /\
   (is_stable transcritical_f_x (r, x) = true <-> 0 < r) /\
   (is_unstable transcritical_f_x (r, x) = true <-> r < 0)).
Proof.
  unfold transcritical_f. intros Hf.
  rewrite !is_stable_iff, !is_unstable_iff. unfold transcritical_f_x.
  assert (Hprod : x * (r - x) == 0) by (rewrite <- Hf; ring).
  apply Qmult_integral in Hprod as [Hx | Hx].
  - left. split; [exact Hx|]. rewrite Hx. split; split; intros H; lra.
  - right. assert (Hxr : x == r) by lra. split; [exact Hxr|].
    rewrite Hxr. split; split; intros H; lra.
Qed.

Lemma transcritical_exchange_of_stability_witness :
  (1 # 2 == 0 /\
   (is_stable transcritical_f_x (1 # 2, 1 # 2) = true <-> 1 # 2 < 0) /\
   (is_unstable transcritical_f_x (1 # 2, 1 # 2) = true <-> 0 < 1 # 2)) \/
  (1 # 2 == 1 # 2 /\
   (is_stable transcritical_f_x (1 # 2, 1 # 2) = true <-> 0 < 1 # 2) /\
   (is_unstable transcritical_f_x (1 # 2, 1 # 2) = true <-> 1 # 2 < 0)).
Proof.
  apply (transcritical_exchange_of_stability (1 # 2) (1 # 2)). reflexivity.
Defined.

(** X23. Example #4, the supercritical pitchfork: the fixed points are
    [x = 0], drawn stable for [r < 0] and unstable for [r > 0], and the pair
    [x*x = r], [x <> 0], which exists for [r > 0] only and is always drawn
    stable. *)
Theorem supercritical_pitchfork_branches (r x : Q) :
  supercritical_f r x == 0 ->
  (x == 0 /\
   (is_stable supercritical_f_x (r, x) = true <-> r < 0) /\
   (is_unstable supercritical_f_x (r, x) = true <-> 0 < r)) \/
  (x * x == r /\ ~ x == 0 /\ 0 < r /\
   is_stable supercritical_f_x (r, x) = true).
Proof.
  unfold supercritical_f. intros Hf.
  rewrite !is_stable_iff, !is_unstable_iff. unfold supercritical_f_x.
  assert (Hprod : x * (r - x * x) == 0) by (rewrite <- Hf; ring).
  assert (Hsq : x ^ 2 == x * x) by ring.
  destruct (Qeq_dec x 0) as [Hx | Hx].
  - left. split; [exact Hx|]. rewrite Hsq, Hx.
    split; split; intros H; lra.
  - right. apply Qmult_integral in Hprod as [Hx0 | Hr]; [contradiction|].
    pose proof (Qsquare_pos x Hx) as Hpos.
    assert (Hxr : x * x == r) by lra.
    split; [exact Hxr|]. split; [exact Hx|]. split; [lra|].
    rewrite Hsq. lra.
Qed.

Lemma supercritical_pitchfork_branches_witness :
  (1 == 0 /\
   (is_stable supercritical_f_x (1, 1) = true <-> 1 < 0) /\
   (is_unstable supercritical_f_x (1, 1) = true <-> 0 < 1)) \/
  (1 * 1 == 1 /\ ~ 1 == 0 /\ 0 < 1 /\
   is_stable supercritical_f_x (1, 1) = true).
Proof.
  apply (supercritical_pitchfork_branches 1 1). reflexivity.
Defined.

(** X24. The subcritical pitchfork: the fixed points are [x = 0], drawn
    stable for [r < 0] and unstable for [r > 0], and the pair [x*x = -r],
    [x <> 0], which exists for [r < 0] only and is always drawn unstable. *)
Theorem subcritical_pitchfork_branches (r x : Q) :
  subcritical_f r x == 0 ->
  (x == 0 /\
   (is_stable subcritical_f_x (r, x) = true <-> r < 0) /\
   (is_unstable subcritical_f_x (r, x) = true <-> 0 < r)) \/
  (x * x == - r /\ ~ x == 0 /\ r < 0 /\
   is_unstable subcritical_f_x (r, x) = true).
Proof.
  unfold subcritical_f. intros Hf.
  rewrite !is_stable_iff, !is_unstable_iff. unfold subcritical_f_x.
  assert (Hprod : x * (r + x * x) == 0) by (rewrite <- Hf; ring).
  assert (Hsq : x ^ 2 == x * x) by ring.
  destruct (Qeq_dec x 0) as [Hx | Hx].
  - left. split; [exact Hx|]. rewrite Hsq, Hx.
    split; split; intros H; lra.
  - right. apply Qmult_integral in Hprod as [Hx0 | Hr]; [contradiction|].
    pose proof (Qsquare_pos x Hx) as Hpos.
    assert (Hxr : x * x == - r) by lra.
    split; [exact Hxr|]. split; [exact Hx|]. split; [lra|].
    rewrite Hsq. lra.
Qed.

Lemma subcritical_pitchfork_branches_witness :
  (1 == 0 /\
   (is_stable subcritical_f_x (-1, 1) = true <-> -1 < 0) /\
   (is_unstable subcritical_f_x (-1, 1) = true <-> 0 < -1)) \/
  (1 * 1 == - (-1) /\ ~ 1 == 0 /\ -1 < 0 /\
   is_unstable subcritical_f_x (-1, 1) = true).
Proof.
  apply (subcritical_pitchfork_branches (-1) 1). reflexivity.
Defined.
